(** * Provider abstraction and stream normalisation of the chat UI

    A shallow embedding of [src/services/apiService.ts] (with the two
    configuration readers of [src/lib/utils.ts] it calls) and the proofs of
    the properties its specification states.

    The file has two parts: the embedding (platform model first, then the
    program), and the theorems. *)

From Stdlib Require Import ZArith List String Ascii Bool Lia.
Import ListNotations.
Open Scope Z_scope.

(* ================================================================== *)
(** * Part I: the embedding                                            *)
(* ================================================================== *)

(** ** JavaScript strings

    A JavaScript string is a finite sequence of UTF-16 code units.  The
    methods below are the ones the program calls, with the meaning ECMA-262
    gives them. *)

Module JsString.

Definition code_unit := Z.
Definition jsstring := list code_unit.

(** A string literal of the source (ASCII only). *)
Fixpoint str (s : string) : jsstring :=
  match s with
  | EmptyString => []
  | String c r => Z.of_N (N_of_ascii c) :: str r
  end.

(** The same, with every apostrophe standing for a double quote, so that
    JSON texts can be written down legibly. *)
Definition json_text (s : string) : jsstring :=
  map (fun u => if u =? 39 then 34 else u) (str s).

(** [a === b] on two strings. *)
Fixpoint str_eqb (a b : jsstring) : bool :=
  match a, b with
  | [], [] => true
  | x :: a', y :: b' => (x =? y) && str_eqb a' b'
  | _, _ => false
  end.

(** WhiteSpace and LineTerminator code points (ECMA-262, 12.2 and 12.3):
    what [String.prototype.trim] removes. *)
Definition is_white_space (u : code_unit) : bool :=
  (u =? 0x9) || (u =? 0xA) || (u =? 0xB) || (u =? 0xC) || (u =? 0xD)
  || (u =? 0x20) || (u =? 0xA0) || (u =? 0x1680)
  || ((0x2000 <=? u) && (u <=? 0x200A))
  || (u =? 0x2028) || (u =? 0x2029) || (u =? 0x202F) || (u =? 0x205F)
  || (u =? 0x3000) || (u =? 0xFEFF).

Fixpoint trimStart (s : jsstring) : jsstring :=
  match s with
  | [] => []
  | u :: r => if is_white_space u then trimStart r else s
  end.

Definition trimEnd (s : jsstring) : jsstring := rev (trimStart (rev s)).

(** [s.trim()] *)
Definition trim (s : jsstring) : jsstring := trimEnd (trimStart s).

(** [s.startsWith(p)] *)
Fixpoint startsWith (s p : jsstring) : bool :=
  match p, s with
  | [], _ => true
  | _ :: _, [] => false
  | y :: p', x :: s' => (x =? y) && startsWith s' p'
  end.

(** [s.includes(p)] *)
Fixpoint includes (s p : jsstring) : bool :=
  startsWith s p ||
  match s with
  | [] => false
  | _ :: r => includes r p
  end.

(** [s.slice(n)] for a non-negative [n]. *)
Definition slice (n : nat) (s : jsstring) : jsstring := skipn n s.

(** [s.split(sep)] for a separator of one code unit: never empty. *)
Fixpoint split (sep : code_unit) (s : jsstring) : list jsstring :=
  match s with
  | [] => [[]]
  | u :: r =>
      if u =? sep then [] :: split sep r
      else match split sep r with
           | l :: ls => (u :: l) :: ls
           | [] => [[u]]
           end
  end.

Definition LF : code_unit := 10.

End JsString.
Export JsString.

(** ** TextDecoder

    [new TextDecoder()] is a UTF-8 decoder in replacement mode that strips a
    leading byte order mark.  The model follows the WHATWG Encoding Standard:
    the UTF-8 decoder's handler (section 9.1.1) and, for [decode] with
    [{stream: true}], the decode and serialize steps of section 7.1. *)

Module TextDecoder.

Definition byte := Z.

(** The state of the UTF-8 decoder between two bytes. *)
Record utf8_state := {
  code_point : Z;
  bytes_seen : Z;
  bytes_needed : Z;
  lower_boundary : Z;
  upper_boundary : Z
}.

Definition utf8_init : utf8_state :=
  {| code_point := 0; bytes_seen := 0; bytes_needed := 0;
     lower_boundary := 0x80; upper_boundary := 0xBF |}.

Definition REPLACEMENT : Z := 0xFFFD.
Definition BOM : Z := 0xFEFF.

(** Handler step 3: a byte met while no sequence is open. *)
Definition utf8_lead (b : byte) : list Z * utf8_state :=
  if (0x00 <=? b) && (b <=? 0x7F) then ([b], utf8_init)
  else if (0xC2 <=? b) && (b <=? 0xDF) then
    ([], {| code_point := Z.land b 0x1F; bytes_seen := 0; bytes_needed := 1;
            lower_boundary := 0x80; upper_boundary := 0xBF |})
  else if (0xE0 <=? b) && (b <=? 0xEF) then
    ([], {| code_point := Z.land b 0xF; bytes_seen := 0; bytes_needed := 2;
            lower_boundary := if b =? 0xE0 then 0xA0 else 0x80;
            upper_boundary := if b =? 0xED then 0x9F else 0xBF |})
  else if (0xF0 <=? b) && (b <=? 0xF4) then
    ([], {| code_point := Z.land b 0x7; bytes_seen := 0; bytes_needed := 3;
            lower_boundary := if b =? 0xF0 then 0x90 else 0x80;
            upper_boundary := if b =? 0xF4 then 0x8F else 0xBF |})
  else ([REPLACEMENT], utf8_init).

(** The handler on one byte: the code points it emits and the next state.
    On a byte outside the expected range (step 4) the open sequence is
    replaced by U+FFFD and the byte is read again from the initial state. *)
Definition utf8_step (st : utf8_state) (b : byte) : list Z * utf8_state :=
  if bytes_needed st =? 0 then utf8_lead b
  else if (b <? lower_boundary st) || (upper_boundary st <? b) then
    let '(out, st') := utf8_lead b in (REPLACEMENT :: out, st')
  else
    let cp := Z.lor (Z.shiftl (code_point st) 6) (Z.land b 0x3F) in
    if bytes_seen st + 1 =? bytes_needed st then ([cp], utf8_init)
    else ([], {| code_point := cp; bytes_seen := bytes_seen st + 1;
                 bytes_needed := bytes_needed st;
                 lower_boundary := 0x80; upper_boundary := 0xBF |}).

(** The handler run over the bytes of one chunk.  End of queue is not
    passed to the handler while [stream] is true, so an open sequence is
    kept in the state and not reported. *)
Fixpoint utf8_run (st : utf8_state) (bs : list byte) : list Z * utf8_state :=
  match bs with
  | [] => ([], st)
  | b :: r =>
      let '(o1, st1) := utf8_step st b in
      let '(o2, st2) := utf8_run st1 r in
      (o1 ++ o2, st2)
  end.

(** A scalar value as UTF-16 code units. *)
Definition utf16 (cp : Z) : jsstring :=
  if cp <=? 0xFFFF then [cp]
  else [0xD800 + Z.shiftr (cp - 0x10000) 10;
        0xDC00 + Z.land (cp - 0x10000) 0x3FF].

(** A TextDecoder object: the decoder's state and its BOM-seen flag. *)
Record t := {
  utf8 : utf8_state;
  bom_seen : bool
}.

(** [new TextDecoder()] *)
Definition create : t := {| utf8 := utf8_init; bom_seen := false |}.

(** Serialize I/O queue: the first scalar value ever produced is dropped
    when it is the byte order mark. *)
Definition serialize (seen : bool) (out : list Z) : list Z * bool :=
  if seen then (out, true)
  else match out with
       | [] => ([], false)
       | cp :: r => (if cp =? BOM then r else out, true)
       end.

(** [decoder.decode(value, { stream: true })] *)
Definition decode (d : t) (value : list byte) : jsstring * t :=
  let '(out, st) := utf8_run (utf8 d) value in
  let '(out', seen) := serialize (bom_seen d) out in
  (flat_map utf16 out', {| utf8 := st; bom_seen := seen |}).

(** [new TextEncoder().encode(s)] for one scalar value: its UTF-8 bytes. *)
Definition encode_scalar (cp : Z) : list byte :=
  if cp <=? 0x7F then [cp]
  else if cp <=? 0x7FF then
    [Z.lor 0xC0 (Z.shiftr cp 6); Z.lor 0x80 (Z.land cp 0x3F)]
  else if cp <=? 0xFFFF then
    [Z.lor 0xE0 (Z.shiftr cp 12);
     Z.lor 0x80 (Z.land (Z.shiftr cp 6) 0x3F);
     Z.lor 0x80 (Z.land cp 0x3F)]
  else
    [Z.lor 0xF0 (Z.shiftr cp 18);
     Z.lor 0x80 (Z.land (Z.shiftr cp 12) 0x3F);
     Z.lor 0x80 (Z.land (Z.shiftr cp 6) 0x3F);
     Z.lor 0x80 (Z.land cp 0x3F)].

(** A Unicode scalar value: a code point that is not a surrogate. *)
Definition is_scalar (cp : Z) : bool :=
  (0 <=? cp) && (cp <=? 0x10FFFF) && negb ((0xD800 <=? cp) && (cp <=? 0xDFFF)).

(** The UTF-8 encoding of a sequence of scalar values. *)
Definition utf8_encode (cps : list Z) : list byte := flat_map encode_scalar cps.

End TextDecoder.

(** ** JavaScript values

    The values the program handles dynamically: what [JSON.parse] returns and
    what the flow-engine SDK hands back.  [undefined] is included, as the
    result of reading a property that is not there. *)

Module Js.

(** A Number as the decimal numeral that denotes it:
    [(-1)^negative * mantissa * 10^exponent], before rounding to a double. *)
Record number := {
  negative : bool;
  mantissa : Z;
  exponent : Z
}.

#[warnings="-register-all"]
Inductive value :=
| JUndefined
| JNull
| JBool (b : bool)
| JNumber (n : number)
| JString (s : jsstring)
| JArray (elements : list value)
| JObject (properties : list (jsstring * value)).

(** Whether a numeral denotes a double that is [+0] or [-0]: its
    magnitude is at most [2^-1075], half of the least positive double
    (ties go to the even neighbour, which is zero). *)
Definition rounds_to_zero (n : number) : bool :=
  (mantissa n =? 0)
  || ((exponent n <? 0) && (mantissa n * 2 ^ 1075 <=? 10 ^ (- exponent n))).

(** ToBoolean (ECMA-262, 7.1.2). *)
Definition truthy (v : value) : bool :=
  match v with
  | JUndefined | JNull => false
  | JBool b => b
  | JNumber n => negb (rounds_to_zero n)
  | JString [] => false
  | JString (_ :: _) => true
  | JArray _ | JObject _ => true
  end.

(** The own property [k] of an object literal read by [JSON.parse]: of
    several members with one name the last one stays. *)
Fixpoint lookup (k : jsstring) (props : list (jsstring * value)) : option value :=
  match props with
  | [] => None
  | (k', v) :: r =>
      match lookup k r with
      | Some v' => Some v'
      | None => if str_eqb k' k then Some v else None
      end
  end.

Definition is_digit (u : code_unit) : bool := (48 <=? u) && (u <=? 57).

Fixpoint decimal_value (acc : Z) (s : jsstring) : option Z :=
  match s with
  | [] => Some acc
  | u :: r => if is_digit u then decimal_value (acc * 10 + (u - 48)) r else None
  end.

(** A property key that is an array index: a canonical decimal numeral
    below [2^32 - 1]. *)
Definition array_index (k : jsstring) : option nat :=
  match k with
  | [] => None
  | u :: r =>
      if (u =? 48) && negb (match r with [] => true | _ => false end) then None
      else match decimal_value 0 k with
           | Some n => if n <? 2 ^ 32 - 1 then Some (Z.to_nat n) else None
           | None => None
           end
  end.

(** The member access [v.k] (or [v[k]]).  [None] is the TypeError raised
    on [undefined] and [null].  Only own data properties are modelled: the
    elements of an array, the code units of a string, the members of an
    object.  [length] and the methods inherited from the prototypes are
    left out; the program reads none of them from these values (it reads
    [type], [delta], [text], [choices], [0], [content], [message],
    [result] and [json]). *)
Definition get (v : value) (k : jsstring) : option value :=
  match v with
  | JUndefined | JNull => None
  | JBool _ | JNumber _ => Some JUndefined
  | JString s =>
      Some match array_index k with
           | Some i => match nth_error s i with
                       | Some u => JString [u]
                       | None => JUndefined
                       end
           | None => JUndefined
           end
  | JArray l =>
      Some match array_index k with
           | Some i => nth i l JUndefined
           | None => JUndefined
           end
  | JObject props =>
      Some match lookup k props with
           | Some x => x
           | None => JUndefined
           end
  end.

(** [undefined] and [null]: the values without properties. *)
Definition nullish (v : value) : bool :=
  match v with
  | JUndefined | JNull => true
  | _ => false
  end.

(** The optional chain [v?.k]. *)
Definition get_opt (v : value) (k : jsstring) : value :=
  match v with
  | JUndefined | JNull => JUndefined
  | _ => match get v k with Some x => x | None => JUndefined end
  end.

(** [v === s] for a string [s]. *)
Definition strict_eq_string (v : value) (s : jsstring) : bool :=
  match v with
  | JString t => str_eqb t s
  | _ => false
  end.

(** [a || b] *)
Definition or_else (a b : value) : value := if truthy a then a else b.

End Js.
Export Js.

(** ** JSON.parse

    The JSON grammar of ECMA-404, as [JSON.parse] reads it (ECMA-262, 25.5.1,
    without a reviver).  [None] is the SyntaxError. *)

Module JSON.

Definition is_ws (u : code_unit) : bool :=
  (u =? 0x20) || (u =? 0x9) || (u =? 0xA) || (u =? 0xD).

Fixpoint skip_ws (s : jsstring) : jsstring :=
  match s with
  | [] => []
  | u :: r => if is_ws u then skip_ws r else s
  end.

Definition hex_digit (u : code_unit) : option Z :=
  if (48 <=? u) && (u <=? 57) then Some (u - 48)
  else if (65 <=? u) && (u <=? 70) then Some (u - 55)
  else if (97 <=? u) && (u <=? 102) then Some (u - 87)
  else None.

Definition hex4 (a b c d : code_unit) : option code_unit :=
  match hex_digit a, hex_digit b, hex_digit c, hex_digit d with
  | Some x, Some y, Some z, Some w => Some (((x * 16 + y) * 16 + z) * 16 + w)
  | _, _, _, _ => None
  end.

(** The code unit a one-letter escape stands for. *)
Definition escape (e : code_unit) : option code_unit :=
  if e =? 34 then Some 34            (* quotation mark *)
  else if e =? 92 then Some 92       (* reverse solidus *)
  else if e =? 47 then Some 47       (* solidus *)
  else if e =? 98 then Some 8        (* b: backspace *)
  else if e =? 102 then Some 12      (* f: form feed *)
  else if e =? 110 then Some 10      (* n: line feed *)
  else if e =? 114 then Some 13      (* r: carriage return *)
  else if e =? 116 then Some 9       (* t: tab *)
  else None.

Definition prepend (u : code_unit) (r : option (jsstring * jsstring))
  : option (jsstring * jsstring) :=
  match r with
  | Some (s, rest) => Some (u :: s, rest)
  | None => None
  end.

(** The characters of a string after its opening quote, up to and
    including the closing one: the string's value and the text left. *)
Fixpoint parse_chars (s : jsstring) : option (jsstring * jsstring) :=
  match s with
  | [] => None
  | u :: r =>
      if u =? 34 then Some ([], r)
      else if u =? 92 then
        match r with
        | [] => None
        | e :: r1 =>
            if e =? 117 then
              match r1 with
              | a :: b :: c :: d :: r2 =>
                  match hex4 a b c d with
                  | Some x => prepend x (parse_chars r2)
                  | None => None
                  end
              | _ => None
              end
            else
              match escape e with
              | Some x => prepend x (parse_chars r1)
              | None => None
              end
        end
      else if u <? 0x20 then None
      else prepend u (parse_chars r)
  end.

(** The longest prefix of decimal digits, as digit values. *)
Fixpoint digits (s : jsstring) : list Z * jsstring :=
  match s with
  | [] => ([], [])
  | u :: r =>
      if is_digit u then let '(ds, r') := digits r in (u - 48 :: ds, r')
      else ([], s)
  end.

Definition digits_value (ds : list Z) : Z :=
  fold_left (fun a d => a * 10 + d) ds 0.

(** int: [0], or a non-zero digit followed by digits. *)
Definition parse_int (s : jsstring) : option (list Z * jsstring) :=
  match s with
  | [] => None
  | u :: r =>
      if u =? 48 then Some ([0], r)
      else if is_digit u then Some (digits s)
      else None
  end.

(** frac: nothing, or [.] followed by at least one digit. *)
Definition parse_frac (s : jsstring) : option (list Z * jsstring) :=
  match s with
  | u :: r =>
      if u =? 46 then
        match digits r with
        | ([], _) => None
        | (ds, r') => Some (ds, r')
        end
      else Some ([], s)
  | [] => Some ([], [])
  end.

(** exp: nothing, or [e] or [E], an optional sign, at least one digit. *)
Definition parse_exp (s : jsstring) : option (Z * jsstring) :=
  match s with
  | u :: r =>
      if (u =? 101) || (u =? 69) then
        let '(sign, r1) :=
          match r with
          | c :: r' => if c =? 45 then (-1, r')
                       else if c =? 43 then (1, r') else (1, r)
          | [] => (1, r)
          end in
        match digits r1 with
        | ([], _) => None
        | (ds, r2) => Some (sign * digits_value ds, r2)
        end
      else Some (0, s)
  | [] => Some (0, [])
  end.

Definition parse_number (s : jsstring) : option (number * jsstring) :=
  let '(neg, s1) :=
    match s with
    | u :: r => if u =? 45 then (true, r) else (false, s)
    | [] => (false, s)
    end in
  match parse_int s1 with
  | None => None
  | Some (ip, s2) =>
      match parse_frac s2 with
      | None => None
      | Some (fp, s3) =>
          match parse_exp s3 with
          | None => None
          | Some (e, s4) =>
              Some ({| negative := neg;
                       mantissa := digits_value (ip ++ fp);
                       exponent := e - Z.of_nat (List.length fp) |}, s4)
          end
      end
  end.

(** A value, the elements of an array after [[] or [,], the members of an
    object after [{] or [,].  The recursion is on [fuel]; a call spends one
    unit and every second call reads at least one code unit, so
    [2 * length s + 1] units are never used up (lemma [parse_value_fuel]
    below). *)
Fixpoint parse_value (fuel : nat) (s : jsstring) : option (value * jsstring) :=
  match fuel with
  | O => None
  | S fuel' =>
      match skip_ws s with
      | [] => None
      | u :: r =>
          if u =? 123 then
            match skip_ws r with
            | [] => None
            | c :: r' =>
                if c =? 125 then Some (JObject [], r')
                else match parse_members fuel' r with
                     | Some (ms, r'') => Some (JObject ms, r'')
                     | None => None
                     end
            end
          else if u =? 91 then
            match skip_ws r with
            | [] => None
            | c :: r' =>
                if c =? 93 then Some (JArray [], r')
                else match parse_elements fuel' r with
                     | Some (vs, r'') => Some (JArray vs, r'')
                     | None => None
                     end
            end
          else if u =? 34 then
            match parse_chars r with
            | Some (t, r') => Some (JString t, r')
            | None => None
            end
          else if startsWith (u :: r) (str "true") then
            Some (JBool true, skipn 4 (u :: r))
          else if startsWith (u :: r) (str "false") then
            Some (JBool false, skipn 5 (u :: r))
          else if startsWith (u :: r) (str "null") then
            Some (JNull, skipn 4 (u :: r))
          else
            match parse_number (u :: r) with
            | Some (n, r') => Some (JNumber n, r')
            | None => None
            end
      end
  end
with parse_elements (fuel : nat) (s : jsstring) : option (list value * jsstring) :=
  match fuel with
  | O => None
  | S fuel' =>
      match parse_value fuel' s with
      | None => None
      | Some (v, r) =>
          match skip_ws r with
          | [] => None
          | c :: r' =>
              if c =? 44 then
                match parse_elements fuel' r' with
                | Some (vs, r'') => Some (v :: vs, r'')
                | None => None
                end
              else if c =? 93 then Some ([v], r')
              else None
          end
      end
  end
with parse_members (fuel : nat) (s : jsstring)
  : option (list (jsstring * value) * jsstring) :=
  match fuel with
  | O => None
  | S fuel' =>
      match skip_ws s with
      | [] => None
      | q :: r0 =>
          if q =? 34 then
            match parse_chars r0 with
            | None => None
            | Some (k, r1) =>
                match skip_ws r1 with
                | [] => None
                | c :: r2 =>
                    if c =? 58 then
                      match parse_value fuel' r2 with
                      | None => None
                      | Some (v, r3) =>
                          match skip_ws r3 with
                          | [] => None
                          | d :: r4 =>
                              if d =? 44 then
                                match parse_members fuel' r4 with
                                | Some (ms, r5) => Some ((k, v) :: ms, r5)
                                | None => None
                                end
                              else if d =? 125 then Some ([(k, v)], r4)
                              else None
                          end
                      end
                    else None
                end
            end
          else None
      end
  end.

(** [JSON.parse(text)]: one value, with nothing but white space after. *)
Definition parse (text : jsstring) : option value :=
  match parse_value (2 * List.length text + 1) text with
  | Some (v, r) =>
      match skip_ws r with
      | [] => Some v
      | _ :: _ => None
      end
  | None => None
  end.

End JSON.

(** ** TextEncoder

    [new TextEncoder().encode(s)]: the UTF-8 bytes of a string, an unpaired
    surrogate being encoded as U+FFFD. *)

Module TextEncoder.

Definition is_high (u : code_unit) : bool := (0xD800 <=? u) && (u <=? 0xDBFF).
Definition is_low (u : code_unit) : bool := (0xDC00 <=? u) && (u <=? 0xDFFF).

(** The scalar values of a string. *)
Fixpoint scalars (s : jsstring) : list Z :=
  match s with
  | [] => []
  | u :: r =>
      if is_high u then
        match r with
        | v :: r' =>
            if is_low v
            then (0x10000 + (u - 0xD800) * 0x400 + (v - 0xDC00)) :: scalars r'
            else TextDecoder.REPLACEMENT :: scalars r
        | [] => [TextDecoder.REPLACEMENT]
        end
      else if is_low u then TextDecoder.REPLACEMENT :: scalars r
      else u :: scalars r
  end.

Definition encode (s : jsstring) : list TextDecoder.byte :=
  TextDecoder.utf8_encode (scalars s).

End TextEncoder.

(** ** The types of the program

    Modelled from the spec: the module [@/types] that declares [Provider],
    [ChatRequest] and [ChatResponse] is not among the sources; the records
    follow section 3 of the specification and the fields [apiService.ts]
    reads and writes.  The seven providers are the cases of the two switches
    of [utils.ts]. *)

Inductive Provider := groq | claude | openai | openrouter | flowise | neura | google.

Inductive Role := system | user | assistant.

Definition Role_eqb (a b : Role) : bool :=
  match a, b with
  | system, system | user, user | assistant, assistant => true
  | _, _ => false
  end.

(** [{ role, content }] *)
Record Message := {
  role : Role;
  content : jsstring
}.

Module ChatRequest.
Record t := {
  messages : list Message;
  model : jsstring;
  temperature : number;
  stream : bool
}.
End ChatRequest.

(** The message of a choice: its content is whatever the provider sent. *)
Module ChoiceMessage.
Record t := {
  role : Role;
  content : value
}.
End ChoiceMessage.

Record Choice := {
  index : Z;
  message : ChoiceMessage.t;
  finish_reason : jsstring
}.

Record ChatResponse := {
  id : value;
  choices : list Choice
}.

(** A [ReadableStream<Uint8Array>] as what its reader will deliver: the
    chunks, in order, and then either the end of the stream or an error. *)
Inductive StreamEnd :=
| Closed
| Errored (reason : jsstring).

Record ReadableStream := {
  chunks : list (list TextDecoder.byte);
  ending : StreamEnd
}.

(** ** Errors

    The program raises [new Error(message)]; each constructor stands for one
    message of the source, under the name the specification gives the
    error. *)
Inductive Error :=
| MissingCredential (provider : Provider)
    (* API key for <provider> is not set. Please check your environment
       variables. *)
| MissingConfiguration (what : string)
    (* Flowise API URL is not set. ... / Flowise Chatflow ID is not set. ... *)
| EmptyRequest
    (* No valid messages found for Claude API request. Messages cannot have
       empty content. *)
| NoUserMessage
    (* No user message found in the request *)
| TransportFailure (status : Z) (detail : value)
    (* [Claude] API request failed with status <status>: <detail> *)
| MisconfiguredEndpoint
    (* Received HTML instead of JSON. Make sure your Flowise API URL ... *)
| RaisedOutside (message : jsstring)
    (* an error of [fetch] or of the SDK, passed on *)
| SyntaxError
    (* [response.json()] rejects *)
| TypeError.
    (* a property read on [undefined] or [null] *)

Inductive Completion (A : Type) :=
| Return (a : A)
| Throw (e : Error).
Arguments Return {A} a.
Arguments Throw {A} e.

(** ** The outside world *)

(** The body handed to [JSON.stringify] for transmission. *)
Module ClaudeBody.
Record t := {
  model : jsstring;
  max_tokens : Z;
  messages : list Message;
  stream : bool
}.
End ClaudeBody.

Inductive Body :=
| BodyClaude (requestBody : ClaudeBody.t)
| BodyChat (chatRequest : ChatRequest.t).

(** [fetch(url, { method: 'POST', headers, body })] *)
Record FetchCall := {
  url : jsstring;
  headers : list (jsstring * jsstring);
  body : Body
}.

Module Response.
Record t := {
  ok : bool;
  status : Z;
  statusText : jsstring;
  json : option value;          (* [None]: [response.json()] rejects *)
  body : ReadableStream
}.
End Response.

Inductive FetchOutcome :=
| Resolved (response : Response.t)
| Rejected (message : jsstring).

Inductive MessageType := apiMessage | userMessage.

(** One entry of the history handed to the flow engine. *)
Module HistoryEntry.
Record t := {
  message : jsstring;
  type : MessageType;
  role : MessageType;
  content : jsstring
}.
End HistoryEntry.

(** [new FlowiseClient({ baseUrl, apiKey })] *)
Record FlowiseClient := {
  baseUrl : jsstring;
  apiKey : option jsstring
}.

(** The argument of [client.createPrediction]. *)
Module PredictionData.
Record t := {
  chatflowId : jsstring;
  question : jsstring;
  history : option (list HistoryEntry.t);
  overrideConfig_temperature : number;
  streaming : bool
}.
End PredictionData.

(** What a non-streaming prediction resolves to. *)
Inductive PredictionOutcome :=
| Prediction (response : value)
| PredictionRejected (message : jsstring).

(** What a streaming prediction generates: events [{event, data}], and the
    error that cuts them short, if any. *)
Record PredictionEvents := {
  events : list (jsstring * jsstring);
  failure : option jsstring
}.

Inductive NetCall :=
| Fetch (call : FetchCall)
| CreatePrediction (client : FlowiseClient) (data : PredictionData.t).

(** Everything the program reads from its surroundings. *)
Record World := {
  env : string -> option jsstring;                (* [import.meta.env] *)
  fetch : FetchCall -> FetchOutcome;
  createPrediction : FlowiseClient -> PredictionData.t -> PredictionOutcome;
  createPredictionStream : FlowiseClient -> PredictionData.t -> PredictionEvents;
  reads_before_error : nat;
    (* how many chunks the consumer has read from a stream of the flow
       engine when a failure puts the stream in error: a matter of timing *)
  JSON_stringify : value -> jsstring;
  random_id : jsstring   (* [Math.random().toString(36).substring(2, 12)] *)
}.

(** ** [src/lib/utils.ts] *)

(** [import.meta.env.NAME || fallback] *)
Definition env_or (w : World) (name : string) (fallback : jsstring) : jsstring :=
  match env w name with
  | Some (u :: r) => u :: r
  | Some [] | None => fallback
  end.

Definition generateId (w : World) : jsstring := random_id w.

Definition getApiUrlForProvider (w : World) (provider : Provider) : jsstring :=
  match provider with
  | groq => env_or w "VITE_GROQ_API_URL" (str "https://api.groq.com/openai/v1/chat/completions")
  | claude => env_or w "VITE_CLAUDE_API_URL" (str "/api/claude-proxy")
  | openai => env_or w "VITE_OPENAI_API_URL" (str "https://api.openai.com/v1/chat/completions")
  | openrouter => env_or w "VITE_OPENROUTER_API_URL" (str "https://openrouter.ai/api/v1/chat/completions")
  | flowise => env_or w "VITE_FLOWISE_API_URL" (str "http://localhost:3000/api/v1/prediction")
  | neura => env_or w "VITE_NEURA_ROUTER_API_URL" (str "https://api.meetneura.ai/v1/chat/completions/router")
  | google => env_or w "VITE_GOOGLE_API_URL" (str "https://generativelanguage.googleapis.com")
  end.

Definition getApiKeyForProvider (w : World) (provider : Provider) : jsstring :=
  match provider with
  | groq => env_or w "VITE_GROQ_API_KEY" []
  | claude => env_or w "VITE_CLAUDE_API_KEY" []
  | openai => env_or w "VITE_OPENAI_API_KEY" []
  | openrouter => env_or w "VITE_OPENROUTER_API_KEY" []
  | flowise => env_or w "VITE_FLOWISE_API_KEY" []
  | neura => env_or w "VITE_NEURA_ROUTER_API_KEY" []
  | google => env_or w "VITE_GOOGLE_API_KEY" []
  end.

(** ** [src/services/apiService.ts]: the request dispatcher *)

(** What a call returns: a [ChatResponse] the program built, the parsed body
    of an OpenAI-compatible provider passed on as it came ([data as
    ChatResponse]), or a byte stream. *)
Inductive Result :=
| Response (r : ChatResponse)
| RawResponse (data : value)
| Stream (s : ReadableStream).

(** A call's effect on the network and its completion. *)
Definition Call := (list NetCall * Completion Result)%type.

(** The truth value of a string. *)
Definition nonempty (s : jsstring) : bool :=
  match s with
  | [] => false
  | _ :: _ => true
  end.

Definition Provider_eqb (a b : Provider) : bool :=
  match a, b with
  | groq, groq | claude, claude | openai, openai | openrouter, openrouter
  | flowise, flowise | neura, neura | google, google => true
  | _, _ => false
  end.

(** [errorData?.error?.message || response.statusText], with [errorData] the
    parsed body or [null]. *)
Definition failure_detail (response : Response.t) : value :=
  let errorData :=
    match Response.json response with
    | Some d => d
    | None => JNull
    end in
  or_else (get_opt (get_opt errorData (str "error")) (str "message"))
          (JString (Response.statusText response)).

(** The messages in the format of the Anthropic API. *)
Definition anthropicMessages (chatRequest : ChatRequest.t) : list Message :=
  map (fun msg =>
         {| role := if Role_eqb (role msg) system then user else role msg;
            content := content msg |})
      (filter (fun msg =>
                 nonempty (content msg) && negb (str_eqb (trim (content msg)) []))
              (ChatRequest.messages chatRequest)).

Definition sendClaudeRequest (w : World) (apiUrl apiKey : jsstring)
    (chatRequest : ChatRequest.t) : Call :=
  if (List.length (anthropicMessages chatRequest) =? 0)%nat then
    ([], Throw EmptyRequest)
  else
    let requestBody :=
      {| ClaudeBody.model := ChatRequest.model chatRequest;
         ClaudeBody.max_tokens := if ChatRequest.stream chatRequest then 16000 else 4096;
         ClaudeBody.messages := anthropicMessages chatRequest;
         ClaudeBody.stream := ChatRequest.stream chatRequest |} in
    let proxyEndpoint := str "/api/proxy/claude" in
    let call :=
      {| url := proxyEndpoint;
         headers := [(str "Content-Type", str "application/json");
                     (str "x-api-key", apiKey)];
         body := BodyClaude requestBody |} in
    ([Fetch call],
     match fetch w call with
     | Rejected m => Throw (RaisedOutside m)
     | Resolved response =>
         if negb (Response.ok response) then
           Throw (TransportFailure (Response.status response) (failure_detail response))
         else if ChatRequest.stream chatRequest then
           Return (Stream (Response.body response))
         else
           match Response.json response with
           | None => Throw SyntaxError
           | Some data =>
               match get data (str "id") with
               | None => Throw TypeError
               | Some data_id =>
                   Return (Response
                     {| id := data_id;
                        choices :=
                          [ {| index := 0;
                               message :=
                                 {| ChoiceMessage.role := assistant;
                                    ChoiceMessage.content :=
                                      or_else
                                        (get_opt (get_opt (get_opt data (str "content"))
                                                          (str "0")) (str "text"))
                                        (JString []) |};
                               finish_reason := str "stop" |} ] |})
               end
           end
     end).

Definition sendOpenAICompatibleRequest (w : World) (apiUrl apiKey : jsstring)
    (chatRequest : ChatRequest.t) : Call :=
  let headers :=
    [(str "Content-Type", str "application/json");
     (str "Authorization", str "Bearer " ++ apiKey)] in
  let call := {| url := apiUrl; headers := headers; body := BodyChat chatRequest |} in
  ([Fetch call],
   match fetch w call with
   | Rejected m => Throw (RaisedOutside m)
   | Resolved response =>
       if negb (Response.ok response) then
         Throw (TransportFailure (Response.status response) (failure_detail response))
       else if ChatRequest.stream chatRequest then
         Return (Stream (Response.body response))
       else
         match Response.json response with
         | None => Throw SyntaxError
         | Some data => Return (RawResponse data)
         end
   end).

(** [s] without the suffix [suffix], when it ends with it. *)
Definition strip_suffix (suffix s : jsstring) : option jsstring :=
  let n := (List.length s - List.length suffix)%nat in
  if (List.length suffix <=? List.length s)%nat && str_eqb (skipn n s) suffix
  then Some (firstn n s)
  else None.

(** [apiUrl.replace(/\/api\/v1\/prediction\/?$/, '')] *)
Definition flowise_baseUrl (apiUrl : jsstring) : jsstring :=
  match strip_suffix (str "/api/v1/prediction/") apiUrl with
  | Some base => base
  | None =>
      match strip_suffix (str "/api/v1/prediction") apiUrl with
      | Some base => base
      | None => apiUrl
      end
  end.

(** [array.pop()] on a fresh array: its last element, if any. *)
Fixpoint pop {A : Type} (l : list A) : option A :=
  match l with
  | [] => None
  | [x] => Some x
  | _ :: r => pop r
  end.

Definition lastUserMessage (chatRequest : ChatRequest.t) : option Message :=
  pop (filter (fun msg => Role_eqb (role msg) user) (ChatRequest.messages chatRequest)).

(** The history in the format of the flow engine, for the last user message
    [last]. *)
Definition flowise_history (chatRequest : ChatRequest.t) (last : Message)
  : list HistoryEntry.t :=
  map (fun msg =>
         {| HistoryEntry.message := content msg;
            HistoryEntry.type :=
              if Role_eqb (role msg) assistant then apiMessage else userMessage;
            HistoryEntry.role :=
              if Role_eqb (role msg) assistant then apiMessage else userMessage;
            HistoryEntry.content := content msg |})
      (filter (fun msg =>
                 negb (Role_eqb (role msg) system)
                 && negb (Role_eqb (role msg) user
                          && str_eqb (content msg) (content last)))
              (ChatRequest.messages chatRequest)).

(** [history.length > 0 ? history : undefined] *)
Definition history_or_undefined (history : list HistoryEntry.t)
  : option (list HistoryEntry.t) :=
  if (0 <? List.length history)%nat then Some history else None.

(** The chunk of one token, in the streaming format of OpenAI. *)
Definition formattedChunk (w : World) (data : jsstring) : jsstring :=
  JSON_stringify w
    (JObject
       [(str "choices",
         JArray
           [JObject
              [(str "index", JNumber {| negative := false; mantissa := 0; exponent := 0 |});
               (str "delta", JObject [(str "content", JString data)]);
               (str "finish_reason", JNull)]])]).

(** The stream the streaming branch builds from the events of the SDK, as
    its reader sees it.  [controller.close()] leaves the chunks in the queue
    to be read.  [controller.error(error)] empties the queue: of the chunks
    enqueued, the reader gets those it has read by then, and the error
    after them. *)
Definition flowise_stream (w : World) (prediction : PredictionEvents) : ReadableStream :=
  let enqueued :=
    flat_map (fun chunk : jsstring * jsstring =>
                let (event, data) := chunk in
                if str_eqb event (str "token") && nonempty data
                then [TextEncoder.encode
                        (str "data: " ++ formattedChunk w data ++ [LF; LF])]
                else [])
             (events prediction) in
  match failure prediction with
  | None =>
      {| chunks := enqueued ++ [TextEncoder.encode (str "data: [DONE]" ++ [LF; LF])];
         ending := Closed |}
  | Some message =>
      {| chunks := firstn (reads_before_error w) enqueued;
         ending := Errored message |}
  end.

(** The content taken from a non-streaming response of the SDK.  [None] is
    the TypeError of reading a property of [undefined] or [null]. *)
Definition flowise_content (w : World) (response : value) : option value :=
  match response with
  | JString _ => Some response
  | _ =>
      match get response (str "text") with
      | None => None
      | Some text =>
          if truthy text then Some text
          else
            match get response (str "result") with
            | None => None
            | Some result =>
                if truthy result then Some result
                else
                  match get response (str "json") with
                  | None => None
                  | Some json =>
                      if truthy json then Some (JString (JSON_stringify w json))
                      else Some (JString [])
                  end
            end
      end
  end.

Definition sendFlowiseRequest (w : World) (apiUrl apiKey : jsstring)
    (chatRequest : ChatRequest.t) : Call :=
  if negb (nonempty apiUrl) then ([], Throw (MissingConfiguration "Flowise API URL"))
  else
    let chatflowId := env_or w "VITE_FLOWISE_CHATFLOW_ID" [] in
    if negb (nonempty chatflowId) then
      ([], Throw (MissingConfiguration "Flowise Chatflow ID"))
    else
      let client :=
        {| baseUrl := flowise_baseUrl apiUrl;
           apiKey := if nonempty apiKey then Some apiKey else None |} in
      match lastUserMessage chatRequest with
      | None => ([], Throw NoUserMessage)
      | Some last =>
          let history := flowise_history chatRequest last in
          let data :=
            {| PredictionData.chatflowId := chatflowId;
               PredictionData.question := content last;
               PredictionData.history := history_or_undefined history;
               PredictionData.overrideConfig_temperature :=
                 ChatRequest.temperature chatRequest;
               PredictionData.streaming := ChatRequest.stream chatRequest |} in
          ([CreatePrediction client data],
           if ChatRequest.stream chatRequest then
             Return (Stream (flowise_stream w (createPredictionStream w client data)))
           else
             match createPrediction w client data with
             | PredictionRejected message =>
                 if includes message (str "<!DOCTYPE html>")
                    || includes message (str "<html")
                 then Throw MisconfiguredEndpoint
                 else Throw (RaisedOutside message)
             | Prediction response =>
                 match flowise_content w response with
                 | None => Throw TypeError
                 | Some content =>
                     Return (Response
                       {| id := JString (generateId w);
                          choices :=
                            [ {| index := 0;
                                 message :=
                                   {| ChoiceMessage.role := assistant;
                                      ChoiceMessage.content := content |};
                                 finish_reason := str "stop" |} ] |})
                 end
             end)
      end.

Definition sendChatRequest (w : World) (provider : Provider)
    (chatRequest : ChatRequest.t) : Call :=
  let apiKey := getApiKeyForProvider w provider in
  let apiUrl := getApiUrlForProvider w provider in
  if negb (nonempty apiKey) && negb (Provider_eqb provider flowise) then
    ([], Throw (MissingCredential provider))
  else if Provider_eqb provider flowise then
    sendFlowiseRequest w apiUrl apiKey chatRequest
  else if Provider_eqb provider claude then
    sendClaudeRequest w apiUrl apiKey chatRequest
  else
    sendOpenAICompatibleRequest w apiUrl apiKey chatRequest.

(** ** [src/services/apiService.ts]: the stream normaliser *)

Module Normalizer.

(** Evaluation that may raise a TypeError ([None]). *)
Definition bind {A B : Type} (c : option A) (k : A -> option B) : option B :=
  match c with
  | Some a => k a
  | None => None
  end.

Notation "x <- c ;; k" := (bind c (fun x => k))
  (at level 61, c at next level, right associativity).

(** The if-chain on a parsed value: [Some (Some v)] yields [v],
    [Some None] yields nothing, [None] is a TypeError (raised when [data]
    is [null]). *)
Definition extract (data : value) : option (option value) :=
  type <- get data (str "type") ;;
  is_text_delta <-
    (if strict_eq_string type (str "content_block_delta") then
       delta <- get data (str "delta") ;;
       Some (strict_eq_string (get_opt delta (str "type")) (str "text_delta"))
     else Some false) ;;
  if is_text_delta then
    delta <- get data (str "delta") ;;
    text <- get delta (str "text") ;;
    Some (Some text)
  else
    choices <- get data (str "choices") ;;
    delta_content <-
      (if truthy choices then
         first <- get choices (str "0") ;;
         Some (get_opt (get_opt first (str "delta")) (str "content"))
       else Some choices) ;;
    if truthy delta_content then
      choices <- get data (str "choices") ;;
      first <- get choices (str "0") ;;
      delta <- get first (str "delta") ;;
      content <- get delta (str "content") ;;
      Some (Some content)
    else
      choices <- get data (str "choices") ;;
      message_content <-
        (if truthy choices then
           first <- get choices (str "0") ;;
           Some (get_opt (get_opt first (str "message")) (str "content"))
         else Some choices) ;;
      if truthy message_content then
        choices <- get data (str "choices") ;;
        first <- get choices (str "0") ;;
        message <- get first (str "message") ;;
        content <- get message (str "content") ;;
        Some (Some content)
      else Some None.

(** What the body of the [for] loop does with one line. *)
Inductive LineResult :=
| Yield (fragment : value)
| Quiet                       (* [continue], or no branch taken *)
| Warn.                       (* the [catch]: a warning on the console *)

(** The text handed to [JSON.parse], for a line that gets that far. *)
Definition payload (line : jsstring) : option jsstring :=
  if includes line (str "event: ping") then None
  else if startsWith line (str "event:") then None
  else if negb (startsWith line (str "data:")) then None
  else
    let trimmedLine :=
      if startsWith line (str "data: ") then slice 6 line else line in
    if str_eqb (trim trimmedLine) [] then None
    else Some trimmedLine.

Definition process_line (line : jsstring) : LineResult :=
  match payload line with
  | None => Quiet
  | Some trimmedLine =>
      match JSON.parse trimmedLine with
      | None => Warn
      | Some data =>
          match extract data with
          | None => Warn
          | Some None => Quiet
          | Some (Some fragment) => Yield fragment
          end
      end
  end.

Definition SENTINEL : jsstring := str "data: [DONE]".

(** The lines of a decoded chunk that the [for] loop runs over. *)
Definition lines_of (chunk : jsstring) : list jsstring :=
  filter (fun line =>
            negb (str_eqb (trim line) []) && negb (str_eqb (trim line) SENTINEL))
         (split LF chunk).

(** The generator object between two calls of [next]: the reader's stream
    (what is still to be read), the decoder, the lines of the current chunk
    still to be run over, the lines warned about on the console, whether
    the reader's lock is held, and whether the generator has completed. *)
Record Generator := {
  reader : ReadableStream;
  decoder : TextDecoder.t;
  lines : list jsstring;
  console : list jsstring;
  locked : bool;
  completed : bool
}.

(** [streamChatResponse(stream)]: the generator, not yet started. *)
Definition streamChatResponse (stream : ReadableStream) : Generator :=
  {| reader := stream; decoder := TextDecoder.create; lines := [];
     console := []; locked := false; completed := false |}.

(** What [next()] settles to. *)
Inductive IteratorResult :=
| Value (fragment : value)      (* [{ value, done: false }] *)
| Done                          (* [{ value: undefined, done: true }] *)
| Raised (reason : jsstring).   (* the promise rejects *)

(** The [for] loop, up to its next [yield]: the fragment, the lines left
    and the lines warned about on the way; [None] when the loop ends. *)
Fixpoint run_lines (ls : list jsstring) (warned : list jsstring)
  : option (value * list jsstring) * list jsstring :=
  match ls with
  | [] => (None, warned)
  | line :: rest =>
      match process_line line with
      | Yield fragment => (Some (fragment, rest), warned)
      | Quiet => run_lines rest warned
      | Warn => run_lines rest (warned ++ [line])
      end
  end.

(** The [while] loop, from [reader.read()] up to the next [yield] or to
    the end of the generator (where [finally] releases the lock). *)
Fixpoint run_reads (cs : list (list TextDecoder.byte)) (e : StreamEnd)
    (d : TextDecoder.t) (warned : list jsstring)
  : IteratorResult * Generator :=
  match cs with
  | [] =>
      (match e with
       | Closed => Done
       | Errored reason => Raised reason
       end,
       {| reader := {| chunks := []; ending := e |}; decoder := d; lines := [];
          console := warned; locked := false; completed := true |})
  | value :: cs' =>
      let '(chunk, d') := TextDecoder.decode d value in
      match run_lines (lines_of chunk) warned with
      | (Some (fragment, rest), warned') =>
          (Value fragment,
           {| reader := {| chunks := cs'; ending := e |}; decoder := d';
              lines := rest; console := warned'; locked := true;
              completed := false |})
      | (None, warned') => run_reads cs' e d' warned'
      end
  end.

(** [generator.next()] *)
Definition next (g : Generator) : IteratorResult * Generator :=
  if completed g then (Done, g)
  else
    match run_lines (lines g) (console g) with
    | (Some (fragment, rest), warned') =>
        (Value fragment,
         {| reader := reader g; decoder := decoder g; lines := rest;
            console := warned'; locked := true; completed := false |})
    | (None, warned') =>
        run_reads (chunks (reader g)) (ending (reader g)) (decoder g) warned'
    end.

(** [for await (const fragment of generator)], by at most [fuel] calls of
    [next]: the fragments received and how the loop ended ([None] when
    the fuel did not suffice). *)
Fixpoint drain (fuel : nat) (g : Generator)
  : list value * option (IteratorResult * Generator) :=
  match fuel with
  | O => ([], None)
  | S fuel' =>
      match next g with
      | (Value fragment, g') =>
          let '(fs, r) := drain fuel' g' in (fragment :: fs, r)
      | (last, g') => ([], Some (last, g'))
      end
  end.

(** The fragments of a list of lines, all of them. *)
Definition fragments_of_lines (ls : list jsstring) : list value :=
  flat_map (fun line =>
              match process_line line with
              | Yield fragment => [fragment]
              | Quiet | Warn => []
              end) ls.

(** The fragments of one decoded chunk. *)
Definition fragments_of_chunk (chunk : jsstring) : list value :=
  fragments_of_lines (lines_of chunk).

(** The texts the successive reads decode. *)
Fixpoint decoded (d : TextDecoder.t) (cs : list (list TextDecoder.byte))
  : list jsstring :=
  match cs with
  | [] => []
  | value :: cs' =>
      let '(chunk, d') := TextDecoder.decode d value in
      chunk :: decoded d' cs'
  end.

(** All the fragments of a stream, in order. *)
Definition fragments (stream : ReadableStream) : list value :=
  flat_map fragments_of_chunk (decoded TextDecoder.create (chunks stream)).

End Normalizer.
Export Normalizer.

(** ** The specification's reference definitions

    What the specification says in its own words, for comparison with the
    program: these definitions are not translated from the source. *)

Module Spec.

(** The value found by following [path] from [v], [undefined] when a step
    is missing. *)
Definition at_path (v : value) (path : list jsstring) : value :=
  fold_left get_opt path v.

Definition choices_0_delta_content : list jsstring :=
  [str "choices"; str "0"; str "delta"; str "content"].

Definition choices_0_message_content : list jsstring :=
  [str "choices"; str "0"; str "message"; str "content"].

(** The content-delta shape of Anthropic: [type == content_block_delta]
    with a nested text delta. *)
Definition is_content_delta (v : value) : bool :=
  strict_eq_string (at_path v [str "type"]) (str "content_block_delta")
  && strict_eq_string (at_path v [str "delta"; str "type"]) (str "text_delta").

(** The fragment of a parsed value, by the precedence (a) to (d). *)
Definition fragment_of (v : value) : option value :=
  if is_content_delta v then Some (at_path v [str "delta"; str "text"])
  else if truthy (at_path v choices_0_delta_content)
  then Some (at_path v choices_0_delta_content)
  else if truthy (at_path v choices_0_message_content)
  then Some (at_path v choices_0_message_content)
  else None.

(** A sequence of fragments that ends when the stream closes or when a
    sentinel line is observed: the fragments of the lines before the
    first sentinel line. *)
Fixpoint before_sentinel (ls : list jsstring) : list jsstring * bool :=
  match ls with
  | [] => ([], false)
  | line :: rest =>
      if str_eqb (trim line) SENTINEL then ([], true)
      else let '(before, seen) := before_sentinel rest in (line :: before, seen)
  end.

Fixpoint normalize_texts (texts : list jsstring) : list value :=
  match texts with
  | [] => []
  | chunk :: rest =>
      let '(before, seen) := before_sentinel (split LF chunk) in
      fragments_of_lines
        (filter (fun line => negb (str_eqb (trim line) [])) before)
      ++ (if seen then [] else normalize_texts rest)
  end.

Definition normalize (stream : ReadableStream) : list value :=
  normalize_texts (decoded TextDecoder.create (chunks stream)).

(** The Anthropic adapter's messages: every empty-content message removed
    and role system rewritten to user. *)
Fixpoint claude_messages (ms : list Message) : list Message :=
  match ms with
  | [] => []
  | m :: rest =>
      match content m with
      | [] => claude_messages rest
      | _ :: _ =>
          {| role := match role m with system => user | r => r end;
             content := content m |} :: claude_messages rest
      end
  end.

Definition claude_max_tokens (streaming : bool) : Z :=
  if streaming then 16000 else 4096.

(** The same with the messages of blank content removed: empty, or white
    space only. *)
Definition blank (s : jsstring) : bool := forallb is_white_space s.

Fixpoint claude_messages_nonblank (ms : list Message) : list Message :=
  match ms with
  | [] => []
  | m :: rest =>
      if blank (content m) then claude_messages_nonblank rest
      else {| role := match role m with system => user | r => r end;
              content := content m |} :: claude_messages_nonblank rest
  end.

(** The flow-engine adapter: the messages before the most recent message
    of role user, and that message. *)
Fixpoint split_at_last_user (ms : list Message) : option (list Message * Message) :=
  match ms with
  | [] => None
  | m :: rest =>
      match split_at_last_user rest with
      | Some (earlier, q) => Some (m :: earlier, q)
      | None => match role m with
                | user => Some ([], m)
                | _ => None
                end
      end
  end.

Definition tag (m : Message) : HistoryEntry.t :=
  let t := match role m with assistant => apiMessage | _ => userMessage end in
  {| HistoryEntry.message := content m; HistoryEntry.type := t;
     HistoryEntry.role := t; HistoryEntry.content := content m |}.

Definition non_system (m : Message) : bool :=
  match role m with system => false | _ => true end.

(** All earlier non-system messages, tagged. *)
Definition flowise_history (earlier : list Message) : list HistoryEntry.t :=
  map tag (filter non_system earlier).

(** The credential of a provider in the configuration. *)
Definition credential_variable (p : Provider) : string :=
  match p with
  | groq => "VITE_GROQ_API_KEY"
  | claude => "VITE_CLAUDE_API_KEY"
  | openai => "VITE_OPENAI_API_KEY"
  | openrouter => "VITE_OPENROUTER_API_KEY"
  | flowise => "VITE_FLOWISE_API_KEY"
  | neura => "VITE_NEURA_ROUTER_API_KEY"
  | google => "VITE_GOOGLE_API_KEY"
  end.

Definition credential_absent (w : World) (p : Provider) : Prop :=
  env w (credential_variable p) = None \/ env w (credential_variable p) = Some [].

(** The own member [k] of an object, [undefined] when there is none or the
    value is no object. *)
Definition field (v : value) (k : jsstring) : value :=
  match v with
  | JObject props => match lookup k props with Some x => x | None => JUndefined end
  | _ => JUndefined
  end.

(** The text of a non-streaming flow-engine response, by priority: the
    response itself when it is a plain string, else its [.text], else its
    [.result], else the stringified [.json], else the empty string. *)
Definition flowise_text (stringify : value -> jsstring) (response : value) : value :=
  match response with
  | JString _ => response
  | _ =>
      if truthy (field response (str "text")) then field response (str "text")
      else if truthy (field response (str "result")) then field response (str "result")
      else if truthy (field response (str "json"))
      then JString (stringify (field response (str "json")))
      else JString []
  end.

End Spec.

(** The fragment a line yields, if any. *)
Definition yielded (r : LineResult) : option value :=
  match r with
  | Yield fragment => Some fragment
  | Quiet | Warn => None
  end.

(** How the generator of a stream ends. *)
Definition end_of (e : StreamEnd) : IteratorResult :=
  match e with
  | Closed => Done
  | Errored reason => Raised reason
  end.

(** The fragments a generator has still to deliver. *)
Definition remaining (g : Generator) : list value :=
  if completed g then []
  else fragments_of_lines (lines g)
       ++ flat_map fragments_of_chunk (decoded (decoder g) (chunks (reader g))).

(** A line of ASCII text as the bytes of a stream. *)
Definition bytes (s : jsstring) : list TextDecoder.byte := s.

(** ** The streams of the examples *)

Definition line_Hi : jsstring :=
  json_text "data: {'choices':[{'delta':{'content':'Hi'}}]}".

Definition line_Yo : jsstring :=
  json_text "data: {'type':'content_block_delta','delta':{'type':'text_delta','text':'Yo'}}".

Definition line_not_json : jsstring := str "data: not-json".

(** One chunk: the line of [Hi], a blank line, the sentinel, a blank line. *)
Definition stream_Hi_DONE : ReadableStream :=
  {| chunks := [bytes line_Hi ++ [LF; LF] ++ bytes SENTINEL ++ [LF; LF]];
     ending := Closed |}.

(** The same, and a second chunk with the line of [Yo]. *)
Definition stream_Hi_DONE_Yo : ReadableStream :=
  {| chunks := [bytes line_Hi ++ [LF; LF] ++ bytes SENTINEL ++ [LF; LF];
                bytes line_Yo ++ [LF; LF]];
     ending := Closed |}.

(** One chunk: the line of [Hi], a line that is not JSON, the line of [Yo]. *)
Definition stream_Hi_bad_Yo : ReadableStream :=
  {| chunks := [bytes line_Hi ++ [LF; LF] ++ bytes line_not_json ++ [LF; LF]
                ++ bytes line_Yo ++ [LF; LF]];
     ending := Closed |}.

Definition line_Hi_no_space : jsstring :=
  json_text "data:{'choices':[{'delta':{'content':'Hi'}}]}".


Definition line_empty_delta : jsstring :=
  json_text "data: {'choices':[{'delta':{'content':''}}]}".

Definition line_empty_delta_message : jsstring :=
  json_text "data: {'choices':[{'delta':{'content':''},'message':{'content':'full'}}]}".

Definition line_empty_text : jsstring :=
  json_text "data: {'type':'content_block_delta','delta':{'type':'text_delta','text':''}}".

(** A line of [Hi] cut in two by the reads, within the two bytes of the
    letter e with acute accent of its content (caf + C3 | A9). *)
Definition stream_cut_line : ReadableStream :=
  {| chunks := [bytes (json_text "data: {'choices':[{'delta':{'content':'caf") ++ [0xC3];
                [0xA9] ++ bytes (json_text "'}}]}") ++ [LF; LF]];
     ending := Closed |}.

(** A byte order mark cut in two by the reads, then the line of [Hi]. *)
Definition stream_bom_cut : ReadableStream :=
  {| chunks := [[0xEF; 0xBB]; [0xBF] ++ bytes line_Hi ++ [LF]];
     ending := Closed |}.

(** ** The worlds and requests of the examples *)

(** A world without configuration and without network. *)
Definition offline : World :=
  {| env := fun _ => None;
     fetch := fun _ => Rejected (str "Failed to fetch");
     createPrediction := fun _ _ => PredictionRejected (str "Failed to fetch");
     createPredictionStream :=
       fun _ _ => {| events := []; failure := Some (str "Failed to fetch") |};
     reads_before_error := 0;
     JSON_stringify := fun _ => [];
     random_id := str "k3x9q0a1bz" |}.

(** A world with a flow engine that answers every question with the object
    whose [text] is [ok]. *)
Definition flow_engine : World :=
  {| env := fun name =>
              if String.eqb name "VITE_FLOWISE_CHATFLOW_ID"
              then Some (str "chatflow-1") else None;
     fetch := fun _ => Rejected (str "Failed to fetch");
     createPrediction :=
       fun _ _ => Prediction (JObject [(str "text", JString (str "ok"))]);
     createPredictionStream := fun _ _ => {| events := []; failure := None |};
     reads_before_error := 0;
     JSON_stringify := fun _ => [];
     random_id := str "k3x9q0a1bz" |}.

Definition a_request (ms : list Message) (streaming : bool) : ChatRequest.t :=
  {| ChatRequest.messages := ms;
     ChatRequest.model := str "a-model";
     ChatRequest.temperature := {| negative := false; mantissa := 7; exponent := -1 |};
     ChatRequest.stream := streaming |}.

Definition says (r : Role) (text : string) : Message :=
  {| role := r; content := str text |}.

(** The configuration of the flow engine is there: its URL and the
    identifier of the chatflow. *)
Definition flowise_configured (w : World) (apiUrl : jsstring) : Prop :=
  nonempty apiUrl = true
  /\ nonempty (env_or w "VITE_FLOWISE_CHATFLOW_ID" []) = true.

(** A text without the byte order mark the decoder strips from its start. *)
Definition without_bom (cps : list Z) : list Z :=
  match cps with
  | [] => []
  | cp :: r => if cp =? TextDecoder.BOM then r else cps
  end.

(** ** [src/lib/utils.ts]: [truncate] *)

(** [s.slice(0, e)] for an integer [e]: a negative [e] counts from the end. *)
Definition slice_to (e : Z) (s : jsstring) : jsstring :=
  let len := Z.of_nat (List.length s) in
  let final := if e <? 0 then Z.max (len + e) 0 else Z.min e len in
  firstn (Z.to_nat final) s.

(** [truncate(str, length)], for an integer [length]. *)
Definition truncate (s : jsstring) (length : Z) : jsstring :=
  if Z.of_nat (List.length s) <=? length then s
  else slice_to length s ++ str "...".

(** ** Notions for the properties of the dispatcher *)

(** The errors raised by the checks that come before any request. *)
Definition validation_error (e : Error) : bool :=
  match e with
  | MissingCredential _ | MissingConfiguration _ | EmptyRequest | NoUserMessage => true
  | _ => false
  end.

(** A call that made no request failed one of the checks; a call that made
    one did not. *)
Definition checked_then_called (c : Call) : Prop :=
  match c with
  | ([], Throw e) => validation_error e = true
  | ([_], Throw e) => validation_error e = false
  | ([_], Return _) => True
  | _ => False
  end.

(** The parsed body of a response or, when there is none, [null]. *)
Definition body_or_null (response : Response.t) : value :=
  match Response.json response with
  | Some d => d
  | None => JNull
  end.

(** The one choice of a ChatResponse the program builds. *)
Definition single_choice (i content : value) : ChatResponse :=
  {| id := i;
     choices :=
       [ {| index := 0;
            message := {| ChoiceMessage.role := assistant;
                          ChoiceMessage.content := content |};
            finish_reason := str "stop" |} ] |}.

(** The world with one variable of the environment set anew. *)
Definition set_env (w : World) (name : string) (v : option jsstring) : World :=
  {| env := fun n => if String.eqb n name then v else env w n;
     fetch := fetch w;
     createPrediction := createPrediction w;
     createPredictionStream := createPredictionStream w;
     reads_before_error := reads_before_error w;
     JSON_stringify := JSON_stringify w;
     random_id := random_id w |}.

(** ** Notions for the properties of the normaliser *)

(** The lines of a list the [catch] warns about. *)
Definition warned_of_lines (ls : list jsstring) : list jsstring :=
  filter (fun line =>
            match process_line line with
            | Warn => true
            | Yield _ | Quiet => false
            end) ls.

Definition warned_of_chunk (chunk : jsstring) : list jsstring :=
  warned_of_lines (lines_of chunk).

(** The warnings a generator will have on its console in the end. *)
Definition console_due (g : Generator) : list jsstring :=
  if completed g then console g
  else console g ++ warned_of_lines (lines g)
       ++ flat_map warned_of_chunk (decoded (decoder g) (chunks (reader g))).

(** The state the decoder of a generator will be in at the end. *)
Definition decoder_due (g : Generator) : TextDecoder.t :=
  if completed g then decoder g
  else snd (TextDecoder.decode (decoder g) (List.concat (chunks (reader g)))).

(** A decoder state that the handler can be in: an open sequence waits for a
    continuation byte. *)
Definition utf8_ok (st : TextDecoder.utf8_state) : Prop :=
  TextDecoder.bytes_needed st = 0 \/ 0x80 <= TextDecoder.lower_boundary st.

(** The object the streaming branch serialises for one token. *)
Definition chunk_object (data : jsstring) : value :=
  JObject
    [(str "choices",
      JArray
        [JObject
           [(str "index", JNumber {| negative := false; mantissa := 0; exponent := 0 |});
            (str "delta", JObject [(str "content", JString data)]);
            (str "finish_reason", JNull)]])].

(** The text enqueued for one token. *)
Definition sse_line (w : World) (data : jsstring) : jsstring :=
  str "data: " ++ formattedChunk w data ++ [LF; LF].

(** The tokens among the events of a prediction: the data, not empty, of the
    events named [token]. *)
Definition tokens (prediction : PredictionEvents) : list jsstring :=
  flat_map (fun chunk : jsstring * jsstring =>
              let (event, data) := chunk in
              if str_eqb event (str "token") && nonempty data then [data] else [])
           (events prediction).

(** A string without unpaired surrogates, of code units in range: encoding
    it as UTF-8 loses nothing. *)
Definition well_formed (s : jsstring) : bool :=
  forallb TextDecoder.is_scalar (TextEncoder.scalars s)
  && str_eqb (flat_map TextDecoder.utf16 (TextEncoder.scalars s)) s.

(** What [JSON.stringify] does for the chunk of a token, as far as the
    stream needs it: the text parses back to the object, is on one line and
    is a well-formed string. *)
Definition stringify_faithful (w : World) (data : jsstring) : Prop :=
  JSON.parse (formattedChunk w data) = Some (chunk_object data)
  /\ ~ In LF (formattedChunk w data)
  /\ well_formed (sse_line w data) = true.

(** ** More worlds for the examples *)

Definition response_429 : Response.t :=
  {| Response.ok := false; Response.status := 429;
     Response.statusText := str "Too Many Requests";
     Response.json :=
       Some (JObject [(str "error",
                       JObject [(str "message", JString (str "slow down"))])]);
     Response.body := {| chunks := []; ending := Closed |} |}.

(** A world that answers every request with status 429 and an error body. *)
Definition throttled : World :=
  {| env := fun name =>
              if String.eqb name "VITE_GROQ_API_KEY" then Some (str "gsk")
              else if String.eqb name "VITE_CLAUDE_API_KEY" then Some (str "sk")
              else None;
     fetch := fun _ => Resolved response_429;
     createPrediction := fun _ _ => PredictionRejected (str "Failed to fetch");
     createPredictionStream := fun _ _ => {| events := []; failure := None |};
     reads_before_error := 0;
     JSON_stringify := fun _ => [];
     random_id := str "k3x9q0a1bz" |}.

Definition claude_reply : Response.t :=
  {| Response.ok := true; Response.status := 200; Response.statusText := str "OK";
     Response.json :=
       Some (JObject
               [(str "id", JString (str "msg_1"));
                (str "content",
                 JArray [JObject [(str "type", JString (str "text"));
                                  (str "text", JString (str "Hello"))];
                         JObject [(str "type", JString (str "text"));
                                  (str "text", JString (str "again"))]])]);
     Response.body := {| chunks := []; ending := Closed |} |}.

Definition claude_world : World :=
  {| env := fun name =>
              if String.eqb name "VITE_CLAUDE_API_KEY" then Some (str "sk") else None;
     fetch := fun _ => Resolved claude_reply;
     createPrediction := fun _ _ => PredictionRejected (str "Failed to fetch");
     createPredictionStream := fun _ _ => {| events := []; failure := None |};
     reads_before_error := 0;
     JSON_stringify := fun _ => [];
     random_id := str "k3x9q0a1bz" |}.

(** [JSON.stringify] on the chunk object of a token that needs no escape;
    the example worlds serialise nothing else. *)
Definition stringify_chunk (v : value) : jsstring :=
  match v with
  | JObject [(_, JArray [JObject [_; (_, JObject [(_, JString data)]); _]])] =>
      json_text "{'choices':[{'index':0,'delta':{'content':'" ++ data
      ++ json_text "'},'finish_reason':null}]}"
  | _ => []
  end.

(** The events of a prediction: two tokens, an event of another name and a
    token without data between them. *)
Definition token_events : PredictionEvents :=
  {| events := [(str "token", str "Hi");
                (str "metadata", str "{}");
                (str "token", []);
                (str "token", str " there")];
     failure := None |}.

(** A world whose flow engine streams [token_events]. *)
Definition streaming_engine : World :=
  {| env := fun name =>
              if String.eqb name "VITE_FLOWISE_CHATFLOW_ID"
              then Some (str "chatflow-1") else None;
     fetch := fun _ => Rejected (str "Failed to fetch");
     createPrediction := fun _ _ => PredictionRejected (str "Failed to fetch");
     createPredictionStream := fun _ _ => token_events;
     reads_before_error := 0;
     JSON_stringify := stringify_chunk;
     random_id := str "k3x9q0a1bz" |}.

(** The events of a prediction that fails after two tokens. *)
Definition broken_events : PredictionEvents :=
  {| events := [(str "token", str "Hi"); (str "token", str " there")];
     failure := Some (str "socket hang up") |}.

(** A world whose flow engine fails while it streams, the consumer having
    read one chunk by then; without streaming it answers with a page of
    markup. *)
Definition failing_engine : World :=
  {| env := fun name =>
              if String.eqb name "VITE_FLOWISE_CHATFLOW_ID"
              then Some (str "chatflow-1") else None;
     fetch := fun _ => Rejected (str "Failed to fetch");
     createPrediction := fun _ _ => PredictionRejected (str "<html><body>UI</body></html>");
     createPredictionStream := fun _ _ => broken_events;
     reads_before_error := 1;
     JSON_stringify := stringify_chunk;
     random_id := str "k3x9q0a1bz" |}.

(* ================================================================== *)
(** * Part II: the theorems                                            *)
(* ================================================================== *)

(** ** Strings *)

Lemma str_eqb_eq (a b : jsstring) : str_eqb a b = true <-> a = b.
Proof.
  revert b; induction a as [|x a IH]; intros [|y b]; simpl; split; intros H;
    try reflexivity; try discriminate.
  - apply andb_true_iff in H as [Hx Hab]. apply Z.eqb_eq in Hx.
    apply IH in Hab. now subst.
  - injection H as -> ->. rewrite Z.eqb_refl. simpl. now apply IH.
Qed.

Lemma str_eqb_refl (a : jsstring) : str_eqb a a = true.
Proof. now apply str_eqb_eq. Qed.

Lemma split_nonempty (sep : code_unit) (s : jsstring) : split sep s <> [].
Proof.
  induction s as [|u r IH]; simpl; [discriminate|].
  destruct (u =? sep); [discriminate|].
  destruct (split sep r); [contradiction | discriminate].
Qed.

(** Splitting at a separator splits the list of pieces. *)
Lemma split_app (sep : code_unit) (a b : jsstring) :
  split sep (a ++ sep :: b) = split sep a ++ split sep b.
Proof.
  induction a as [|u a IH]; simpl.
  - now rewrite Z.eqb_refl.
  - destruct (u =? sep); [now rewrite IH|].
    rewrite IH. pose proof (split_nonempty sep a) as Hne.
    destruct (split sep a); [contradiction | reflexivity].
Qed.

(** A text without the separator is one piece. *)
Lemma split_one (sep : code_unit) (s : jsstring) :
  ~ In sep s -> split sep s = [s].
Proof.
  induction s as [|u r IH]; simpl; intros Hn; [reflexivity|].
  destruct (Z.eqb_spec u sep) as [->|_]; [exfalso; now apply Hn; left|].
  rewrite IH; [reflexivity | intros Hin; apply Hn; now right].
Qed.

(** ** Blank strings *)

Lemma trimStart_nil (s : jsstring) :
  trimStart s = [] <-> forallb is_white_space s = true.
Proof.
  induction s as [|u r IH]; simpl; [tauto|].
  destruct (is_white_space u); simpl; [exact IH|].
  split; discriminate.
Qed.

(** What [trimStart] leaves does not begin with white space. *)
Lemma trimStart_head (s : jsstring) (u : code_unit) (r : jsstring) :
  trimStart s = u :: r -> is_white_space u = false.
Proof.
  induction s as [|v s IH]; simpl; [discriminate|].
  destruct (is_white_space v) eqn:Hv; [exact IH|].
  intros H. injection H as <- _. exact Hv.
Qed.

Lemma forallb_rev {A : Type} (p : A -> bool) (l : list A) :
  forallb p (rev l) = forallb p l.
Proof.
  induction l as [|x l IH]; simpl; [reflexivity|].
  rewrite forallb_app, IH. simpl. rewrite andb_true_r. apply andb_comm.
Qed.

(** [s.trim() === ''] exactly when [s] is white space throughout. *)
Lemma trim_blank (s : jsstring) :
  str_eqb (trim s) [] = Spec.blank s.
Proof.
  unfold Spec.blank.
  destruct (forallb is_white_space s) eqn:Hb.
  - apply str_eqb_eq. unfold trim, trimEnd.
    apply trimStart_nil in Hb. now rewrite Hb.
  - destruct (str_eqb (trim s) []) eqn:Ht; [|reflexivity].
    apply str_eqb_eq in Ht. unfold trim, trimEnd in Ht.
    assert (Hr : trimStart (rev (trimStart s)) = []).
    { rewrite <- (rev_involutive (trimStart (rev (trimStart s)))), Ht.
      reflexivity. }
    apply trimStart_nil in Hr. rewrite forallb_rev in Hr.
    destruct (trimStart s) as [|u r] eqn:Hs.
    + apply trimStart_nil in Hs. congruence.
    + apply trimStart_head in Hs. simpl in Hr. rewrite Hs in Hr. discriminate.
Qed.

(** ** The fuel of the JSON parser *)

Import JSON.

Lemma skip_ws_length (s : jsstring) : (List.length (skip_ws s) <= List.length s)%nat.
Proof.
  induction s as [|u r IH]; simpl; [lia|].
  destruct (is_ws u); simpl; lia.
Qed.

Lemma skip_ws_cons_length (s r : jsstring) (u : code_unit) :
  skip_ws s = u :: r -> (List.length r < List.length s)%nat.
Proof.
  intros H. pose proof (skip_ws_length s) as Hl. rewrite H in Hl. simpl in Hl. lia.
Qed.

Lemma prepend_some u x k r :
  prepend u x = Some (k, r) -> exists k', x = Some (k', r) /\ k = u :: k'.
Proof.
  destruct x as [[k' r']|]; simpl; intros H; [|discriminate].
  injection H as <- <-. now exists k'.
Qed.

Lemma parse_chars_length (n : nat) :
  forall s k r, (List.length s <= n)%nat ->
    parse_chars s = Some (k, r) -> (List.length r <= List.length s)%nat.
Proof.
  induction n as [|n IH]; intros s k r Hn H.
  - destruct s; [discriminate | simpl in Hn; lia].
  - destruct s as [|u s]; [discriminate|]. simpl in H, Hn |- *.
    destruct (u =? 34).
    { injection H as _ <-. lia. }
    destruct (u =? 92).
    { destruct s as [|e r1]; [discriminate|].
      destruct (e =? 117).
      - destruct r1 as [|a [|b [|c [|d r2]]]]; try discriminate.
        destruct (hex4 a b c d); [|discriminate].
        apply prepend_some in H as (k' & H & _).
        apply IH in H; simpl in *; lia.
      - destruct (escape e); [|discriminate].
        apply prepend_some in H as (k' & H & _).
        apply IH in H; simpl in *; lia. }
    destruct (u <? 32); [discriminate|].
    apply prepend_some in H as (k' & H & _).
    apply IH in H; simpl in *; lia.
Qed.

Lemma digits_length (s : jsstring) :
  (List.length (snd (digits s)) <= List.length s)%nat.
Proof.
  induction s as [|u r IH]; simpl; [lia|].
  destruct (is_digit u); [|simpl; lia].
  destruct (digits r). simpl in *. lia.
Qed.

Lemma parse_number_length (s r : jsstring) (n : number) :
  parse_number s = Some (n, r) -> (List.length r <= List.length s)%nat.
Proof.
  unfold parse_number.
  destruct (match s with
            | [] => (false, s)
            | u :: r0 => if u =? 45 then (true, r0) else (false, s)
            end) as [neg s1] eqn:H1.
  assert (L1 : (List.length s1 <= List.length s)%nat).
  { destruct s as [|u r0]; [injection H1 as _ <-; lia|].
    destruct (u =? 45); injection H1 as _ <-; simpl; lia. }
  destruct (parse_int s1) as [[ip s2]|] eqn:H2; [|discriminate].
  assert (L2 : (List.length s2 <= List.length s1)%nat).
  { unfold parse_int in H2. destruct s1 as [|u r0]; [discriminate|].
    destruct (u =? 48); [injection H2 as _ <-; simpl; lia|].
    destruct (is_digit u); [|discriminate].
    pose proof (digits_length (u :: r0)) as Hd.
    destruct (digits (u :: r0)). injection H2 as _ <-. exact Hd. }
  destruct (parse_frac s2) as [[fp s3]|] eqn:H3; [|discriminate].
  assert (L3 : (List.length s3 <= List.length s2)%nat).
  { unfold parse_frac in H3. destruct s2 as [|u r0]; [injection H3 as _ <-; lia|].
    destruct (u =? 46); [|injection H3 as _ <-; lia].
    pose proof (digits_length r0) as Hd.
    destruct (digits r0) as [[|d ds] r']; [discriminate|].
    injection H3 as _ <-. simpl in *. lia. }
  destruct (parse_exp s3) as [[e s4]|] eqn:H4; [|discriminate].
  assert (L4 : (List.length s4 <= List.length s3)%nat).
  { unfold parse_exp in H4. destruct s3 as [|u r0]; [injection H4 as _ <-; lia|].
    destruct ((u =? 101) || (u =? 69)); [|injection H4 as _ <-; lia].
    destruct (match r0 with
              | [] => (1, r0)
              | c :: r' => if c =? 45 then (-1, r') else if c =? 43 then (1, r') else (1, r0)
              end) as [sign r1] eqn:Hs.
    assert (Ls : (List.length r1 <= List.length r0)%nat).
    { destruct r0 as [|c r']; [injection Hs as _ <-; lia|].
      destruct (c =? 45); [injection Hs as _ <-; simpl; lia|].
      destruct (c =? 43); injection Hs as _ <-; simpl; lia. }
    pose proof (digits_length r1) as Hd.
    destruct (digits r1) as [[|d ds] r2]; [discriminate|].
    injection H4 as _ <-. simpl in *. lia. }
  intros H. injection H as _ <-. lia.
Qed.

(** What the parser leaves is no longer than what it was given. *)
Lemma parse_length (f : nat) :
  (forall s v r, parse_value f s = Some (v, r) ->
                 (List.length r <= List.length s)%nat)
  /\ (forall s vs r, parse_elements f s = Some (vs, r) ->
                     (List.length r <= List.length s)%nat)
  /\ (forall s ms r, parse_members f s = Some (ms, r) ->
                     (List.length r <= List.length s)%nat).
Proof.
  induction f as [|f (IHv & IHe & IHm)]; [repeat split; discriminate|].
  split; [|split].
  - intros s v r H. cbn [parse_value] in H.
    destruct (skip_ws s) as [|u r0] eqn:Hs; [discriminate|].
    pose proof (skip_ws_cons_length s r0 u Hs) as L0.
    destruct (u =? 123).
    { destruct (skip_ws r0) as [|c r1] eqn:Hs1; [discriminate|].
      pose proof (skip_ws_cons_length r0 r1 c Hs1) as L1.
      destruct (c =? 125); [injection H as _ <-; lia|].
      destruct (parse_members f r0) as [[ms r2]|] eqn:Hm; [|discriminate].
      apply IHm in Hm. injection H as _ <-. lia. }
    destruct (u =? 91).
    { destruct (skip_ws r0) as [|c r1] eqn:Hs1; [discriminate|].
      pose proof (skip_ws_cons_length r0 r1 c Hs1) as L1.
      destruct (c =? 93); [injection H as _ <-; lia|].
      destruct (parse_elements f r0) as [[vs r2]|] eqn:He; [|discriminate].
      apply IHe in He. injection H as _ <-. lia. }
    destruct (u =? 34).
    { destruct (parse_chars r0) as [[t r1]|] eqn:Hc; [|discriminate].
      apply (parse_chars_length (List.length r0)) in Hc; [|lia].
      injection H as _ <-. lia. }
    destruct (startsWith (u :: r0) (str "true")).
    { injection H as _ <-. pose proof (length_skipn 4 (u :: r0)). simpl in *. lia. }
    destruct (startsWith (u :: r0) (str "false")).
    { injection H as _ <-. pose proof (length_skipn 5 (u :: r0)). simpl in *. lia. }
    destruct (startsWith (u :: r0) (str "null")).
    { injection H as _ <-. pose proof (length_skipn 4 (u :: r0)). simpl in *. lia. }
    destruct (parse_number (u :: r0)) as [[n r1]|] eqn:Hn; [|discriminate].
    apply parse_number_length in Hn. injection H as _ <-. simpl in *. lia.
  - intros s vs r H. cbn [parse_elements] in H.
    destruct (parse_value f s) as [[v r0]|] eqn:Hv; [|discriminate].
    apply IHv in Hv.
    destruct (skip_ws r0) as [|c r1] eqn:Hs1; [discriminate|].
    pose proof (skip_ws_cons_length r0 r1 c Hs1) as L1.
    destruct (c =? 44).
    { destruct (parse_elements f r1) as [[vs' r2]|] eqn:He; [|discriminate].
      apply IHe in He. injection H as _ <-. lia. }
    destruct (c =? 93); [|discriminate]. injection H as _ <-. lia.
  - intros s ms r H. cbn [parse_members] in H.
    destruct (skip_ws s) as [|q r0] eqn:Hs; [discriminate|].
    pose proof (skip_ws_cons_length s r0 q Hs) as L0.
    destruct (q =? 34); [|discriminate].
    destruct (parse_chars r0) as [[k r1]|] eqn:Hc; [|discriminate].
    apply (parse_chars_length (List.length r0)) in Hc; [|lia].
    destruct (skip_ws r1) as [|c r2] eqn:Hs2; [discriminate|].
    pose proof (skip_ws_cons_length r1 r2 c Hs2) as L2.
    destruct (c =? 58); [|discriminate].
    destruct (parse_value f r2) as [[v r3]|] eqn:Hv; [|discriminate].
    apply IHv in Hv.
    destruct (skip_ws r3) as [|d r4] eqn:Hs4; [discriminate|].
    pose proof (skip_ws_cons_length r3 r4 d Hs4) as L4.
    destruct (d =? 44).
    { destruct (parse_members f r4) as [[ms' r5]|] eqn:Hm; [|discriminate].
      apply IHm in Hm. injection H as _ <-. lia. }
    destruct (d =? 125); [|discriminate]. injection H as _ <-. lia.
Qed.

(** A result obtained with some fuel is obtained with any fuel from
    [2 * length s + 1] on (one more for elements and members). *)
Lemma parse_fuel_enough (f' : nat) :
  (forall s x f, parse_value f' s = Some x ->
                 (2 * List.length s + 1 <= f)%nat -> parse_value f s = Some x)
  /\ (forall s x f, parse_elements f' s = Some x ->
                    (2 * List.length s + 2 <= f)%nat -> parse_elements f s = Some x)
  /\ (forall s x f, parse_members f' s = Some x ->
                    (2 * List.length s + 2 <= f)%nat -> parse_members f s = Some x).
Proof.
  induction f' as [|f' (IHv & IHe & IHm)]; [repeat split; discriminate|].
  split; [|split].
  - intros s x [|f] H Hf; [lia|]. cbn [parse_value] in H |- *.
    destruct (skip_ws s) as [|u r0] eqn:Hs; [discriminate|].
    pose proof (skip_ws_cons_length s r0 u Hs) as L0.
    destruct (u =? 123).
    { destruct (skip_ws r0) as [|c r1] eqn:Hs1; [discriminate|].
      destruct (c =? 125); [exact H|].
      destruct (parse_members f' r0) as [[ms r2]|] eqn:Hm; [|discriminate].
      now rewrite (IHm r0 _ f Hm) by lia. }
    destruct (u =? 91).
    { destruct (skip_ws r0) as [|c r1] eqn:Hs1; [discriminate|].
      destruct (c =? 93); [exact H|].
      destruct (parse_elements f' r0) as [[vs r2]|] eqn:He; [|discriminate].
      now rewrite (IHe r0 _ f He) by lia. }
    exact H.
  - intros s x [|f] H Hf; [lia|]. cbn [parse_elements] in H |- *.
    destruct (parse_value f' s) as [[v r0]|] eqn:Hv; [|discriminate].
    pose proof (proj1 (parse_length f') s v r0 Hv) as Lv.
    rewrite (IHv s _ f Hv) by lia.
    destruct (skip_ws r0) as [|c r1] eqn:Hs1; [discriminate|].
    pose proof (skip_ws_cons_length r0 r1 c Hs1) as L1.
    destruct (c =? 44); [|exact H].
    destruct (parse_elements f' r1) as [[vs' r2]|] eqn:He; [|discriminate].
    now rewrite (IHe r1 _ f He) by lia.
  - intros s x [|f] H Hf; [lia|]. cbn [parse_members] in H |- *.
    destruct (skip_ws s) as [|q r0] eqn:Hs; [discriminate|].
    pose proof (skip_ws_cons_length s r0 q Hs) as L0.
    destruct (q =? 34); [|discriminate].
    destruct (parse_chars r0) as [[k r1]|] eqn:Hc; [|discriminate].
    pose proof (parse_chars_length (List.length r0) r0 k r1 (le_n _) Hc) as Lc.
    destruct (skip_ws r1) as [|c r2] eqn:Hs2; [discriminate|].
    pose proof (skip_ws_cons_length r1 r2 c Hs2) as L2.
    destruct (c =? 58); [|discriminate].
    destruct (parse_value f' r2) as [[v r3]|] eqn:Hv; [|discriminate].
    pose proof (proj1 (parse_length f') r2 v r3 Hv) as Lv.
    rewrite (IHv r2 _ f Hv) by lia.
    destruct (skip_ws r3) as [|d r4] eqn:Hs4; [discriminate|].
    pose proof (skip_ws_cons_length r3 r4 d Hs4) as L4.
    destruct (d =? 44); [|exact H].
    destruct (parse_members f' r4) as [[ms' r5]|] eqn:Hm; [|discriminate].
    now rewrite (IHm r4 _ f Hm) by lia.
Qed.

(** The fuel [JSON.parse] starts with never runs out: more fuel changes
    nothing. *)
Lemma parse_value_fuel (s : jsstring) (f : nat) :
  (2 * List.length s + 1 <= f)%nat ->
  parse_value f s = parse_value (2 * List.length s + 1) s.
Proof.
  intros Hf.
  destruct (parse_value (2 * List.length s + 1) s) as [x|] eqn:H.
  - exact (proj1 (parse_fuel_enough _) s x f H Hf).
  - destruct (parse_value f s) as [x|] eqn:H'; [|reflexivity].
    rewrite (proj1 (parse_fuel_enough _) s x _ H' (le_n _)) in H. discriminate.
Qed.

Lemma skip_ws_head (s r : jsstring) (u : code_unit) :
  skip_ws s = u :: r -> is_ws u = false /\ In u s.
Proof.
  induction s as [|v s IH]; simpl; [discriminate|].
  destruct (is_ws v) eqn:Hv.
  - intros H. destruct (IH H) as [H1 H2]. auto.
  - intros H. injection H as <- _. auto.
Qed.

(** White space that JSON does not know begins no JSON value. *)
Lemma parse_value_white_space (f : nat) (s r : jsstring) (u : code_unit) :
  skip_ws s = u :: r ->
  is_white_space u = true ->
  parse_value f s = None.
Proof.
  intros Hs Hw. destruct (skip_ws_head s r u Hs) as [Hn _].
  destruct f as [|f]; [reflexivity|]. cbn [parse_value]. rewrite Hs.
  unfold is_white_space in Hw. unfold is_ws in Hn.
  assert (Hu : u = 0xB \/ u = 0xC \/ 0xA0 <= u).
  { repeat match type of Hw with
           | (_ || _) = true => apply orb_true_iff in Hw as [Hw|Hw]
           | (_ && _) = true => apply andb_true_iff in Hw as [Hw ?]
           end;
      repeat match goal with
             | H : (_ =? _) = true |- _ => apply Z.eqb_eq in H
             | H : (_ <=? _) = true |- _ => apply Z.leb_le in H
             end;
      try lia;
      subst u; discriminate. }
  assert (H123 : (u =? 123) = false) by (apply Z.eqb_neq; lia).
  assert (H91 : (u =? 91) = false) by (apply Z.eqb_neq; lia).
  assert (H34 : (u =? 34) = false) by (apply Z.eqb_neq; lia).
  rewrite H123, H91, H34.
  assert (Ht : startsWith (u :: r) (str "true") = false).
  { simpl. replace (u =? 116) with false by (symmetry; apply Z.eqb_neq; lia).
    reflexivity. }
  assert (Hf : startsWith (u :: r) (str "false") = false).
  { simpl. replace (u =? 102) with false by (symmetry; apply Z.eqb_neq; lia).
    reflexivity. }
  assert (Hnl : startsWith (u :: r) (str "null") = false).
  { simpl. replace (u =? 110) with false by (symmetry; apply Z.eqb_neq; lia).
    reflexivity. }
  rewrite Ht, Hf, Hnl.
  unfold parse_number, parse_int.
  replace (u =? 45) with false by (symmetry; apply Z.eqb_neq; lia).
  replace (u =? 48) with false by (symmetry; apply Z.eqb_neq; lia).
  replace (is_digit u) with false; [reflexivity|].
  symmetry. unfold is_digit. apply andb_false_iff.
  destruct Hu as [->| [->|Hu]]; [left; reflexivity | left; reflexivity |].
  right. apply Z.leb_gt. lia.
Qed.

(** A blank text is no JSON text. *)
Lemma parse_blank (text : jsstring) :
  Spec.blank text = true -> JSON.parse text = None.
Proof.
  intros Hb. unfold JSON.parse.
  destruct (skip_ws text) as [|u r] eqn:Hs.
  - replace (2 * List.length text + 1)%nat with (S (2 * List.length text)) by lia.
    cbn [parse_value]. now rewrite Hs.
  - rewrite (parse_value_white_space _ text r u Hs); [reflexivity|].
    destruct (skip_ws_head text r u Hs) as [_ Hin].
    unfold Spec.blank in Hb. rewrite forallb_forall in Hb. now apply Hb.
Qed.

(** ** Reading properties *)

Lemma get_defined (v : value) (k : jsstring) :
  nullish v = false -> get v k = Some (get_opt v k).
Proof. destruct v; simpl; intros H; try discriminate; reflexivity. Qed.

Lemma truthy_defined (v : value) : truthy v = true -> nullish v = false.
Proof. destruct v as [| |b|n|[|u s]|l|m]; simpl; intros H; try discriminate; reflexivity. Qed.

Lemma strict_eq_string_defined (v : value) (s : jsstring) :
  strict_eq_string v s = true -> nullish v = false.
Proof. destruct v; simpl; intros H; try discriminate; reflexivity. Qed.

(** A property that is there belongs to a value that is there. *)
Lemma get_opt_defined (v : value) (k : jsstring) :
  nullish (get_opt v k) = false -> nullish v = false.
Proof. destruct v; simpl; intros H; try discriminate; reflexivity. Qed.

Lemma get_opt_truthy (v : value) (k : jsstring) :
  truthy (get_opt v k) = true -> nullish v = false.
Proof. intros H. apply (get_opt_defined v k), truthy_defined, H. Qed.

(** ** The gates before the parser *)

(** A line without the [data:] prefix yields nothing, and warns of nothing. *)
Lemma line_without_data_prefix (line : jsstring) :
  startsWith line (str "data:") = false -> process_line line = Quiet.
Proof.
  intros H. unfold process_line, payload. rewrite H. cbn [negb].
  destruct (includes line (str "event: ping")); [reflexivity|].
  destruct (startsWith line (str "event:")); reflexivity.
Qed.

(** A line with the prefix [data: ], free of the text [event: ping] and with
    more than white space after the prefix, has the text after the prefix
    parsed. *)
Lemma line_with_data_space_prefix (line : jsstring) :
  startsWith line (str "data: ") = true ->
  includes line (str "event: ping") = false ->
  Spec.blank (slice 6 line) = false ->
  payload line = Some (slice 6 line).
Proof.
  intros Hd Hp Hb. unfold payload. rewrite Hp, Hd, trim_blank, Hb.
  assert (He : startsWith line (str "event:") = false).
  { destruct line as [|u r]; [discriminate|]. simpl in Hd |- *.
    destruct (Z.eqb_spec u 100) as [->|]; [reflexivity | discriminate]. }
  assert (Hd' : startsWith line (str "data:") = true).
  { revert Hd. unfold str; simpl.
    repeat (destruct line as [|? line]; [discriminate|];
            simpl; destruct (_ =? _); [|discriminate]; simpl).
    reflexivity. }
  now rewrite He, Hd'.
Qed.

(** No JSON text begins with the letter d. *)
Lemma parse_letter_d (r : jsstring) : JSON.parse (100 :: r) = None.
Proof.
  unfold JSON.parse.
  replace (2 * List.length (100%Z :: r) + 1)%nat
    with (S (2 * List.length (100%Z :: r))) by lia.
  reflexivity.
Qed.

(** With the prefix [data:] but no space after it, the whole line goes to
    [JSON.parse], which fails on it: the line never yields. *)
Lemma line_with_bare_data_prefix (line : jsstring) :
  startsWith line (str "data:") = true ->
  startsWith line (str "data: ") = false ->
  yielded (process_line line) = None.
Proof.
  intros Hd Hs. unfold process_line, payload. rewrite Hd, Hs. cbn [negb].
  destruct (includes line (str "event: ping")); [reflexivity|].
  destruct (startsWith line (str "event:")); [reflexivity|].
  destruct (str_eqb (trim line) []); [reflexivity|].
  destruct line as [|u r]; [discriminate|]. simpl in Hd.
  destruct (Z.eqb_spec u 100) as [->|]; [|discriminate].
  now rewrite parse_letter_d.
Qed.

(** ** The precedence of the normaliser *)

(** The two OpenAI-style branches of the if-chain, for a value that has
    properties. *)
Lemma extract_choices (data : value) (k : jsstring) :
  nullish data = false ->
  let content :=
    get_opt (get_opt (get_opt (get_opt data (str "choices")) (str "0")) k)
            (str "content") in
  (choices <- get data (str "choices") ;;
   (if truthy choices then
      first <- get choices (str "0") ;;
      Some (get_opt (get_opt first k) (str "content"))
    else Some choices)) = Some (if truthy (get_opt data (str "choices"))
                                then content else get_opt data (str "choices"))
  /\ (truthy content = true ->
      (choices <- get data (str "choices") ;;
       first <- get choices (str "0") ;;
       inner <- get first k ;;
       content' <- get inner (str "content") ;;
       Some (Some content')) = Some (Some content))
  /\ (truthy (get_opt data (str "choices")) = false -> truthy content = false).
Proof.
  intros Hn content. unfold bind. rewrite (get_defined data _ Hn).
  split; [|split].
  - destruct (truthy (get_opt data (str "choices"))) eqn:Hc; [|reflexivity].
    now rewrite (get_defined _ _ (truthy_defined _ Hc)).
  - intros Ht.
    pose proof (get_opt_truthy _ _ Ht) as H3.
    pose proof (get_opt_defined _ _ H3) as H2.
    pose proof (get_opt_defined _ _ H2) as H1.
    now rewrite (get_defined _ _ H1), (get_defined _ _ H2), (get_defined _ _ H3).
  - intros Hc. subst content.
    destruct (get_opt data (str "choices")) as [| |b|n|[|u s]|l|m]; simpl in *;
      try reflexivity; discriminate.
Qed.

(** The if-chain of the source and the precedence of the specification give
    the same fragment; the chain raises a TypeError on [undefined] and [null]
    only, where the precedence finds nothing. *)
Lemma extract_fragment_of (data : value) :
  match extract data with
  | Some r => r = Spec.fragment_of data
  | None => Spec.fragment_of data = None /\ nullish data = true
  end.
Proof.
  destruct (nullish data) eqn:Hn.
  - destruct data; try discriminate; simpl; now split.
  - destruct (extract_choices data (str "delta") Hn) as (Hd1 & Hd2 & Hd3).
    destruct (extract_choices data (str "message") Hn) as (Hm1 & Hm2 & Hm3).
    cbv zeta in Hd1, Hd2, Hd3, Hm1, Hm2, Hm3.
    unfold extract, Spec.fragment_of, Spec.is_content_delta, Spec.at_path,
      Spec.choices_0_delta_content, Spec.choices_0_message_content.
    cbn [fold_left].
    unfold bind in *.
    rewrite !(get_defined data _ Hn) in *.
    rewrite Hd1, Hm1.
    set (ch := get_opt data (str "choices")) in *.
    set (dc := get_opt (get_opt (get_opt ch (str "0")) (str "delta")) (str "content")) in *.
    set (mc := get_opt (get_opt (get_opt ch (str "0")) (str "message")) (str "content")) in *.
    assert (Htail : forall A (x y z : A),
      (if truthy (if truthy ch then dc else ch) then x
       else if truthy (if truthy ch then mc else ch) then y else z)
      = if truthy dc then x else if truthy mc then y else z).
    { intros A x y z. destruct (truthy ch) eqn:Hc; [reflexivity|].
      now rewrite Hc, (Hd3 eq_refl), (Hm3 eq_refl). }
    rewrite Htail. clear Htail.
    assert (Hgo :
      (if truthy dc
       then match get ch (str "0") with
            | Some a1 =>
                match get a1 (str "delta") with
                | Some a2 => match get a2 (str "content") with
                             | Some a3 => Some (Some a3)
                             | None => None
                             end
                | None => None
                end
            | None => None
            end
       else if truthy mc
            then match get ch (str "0") with
                 | Some a1 =>
                     match get a1 (str "message") with
                     | Some a2 => match get a2 (str "content") with
                                  | Some a3 => Some (Some a3)
                                  | None => None
                                  end
                     | None => None
                     end
                 | None => None
                 end
            else Some None)
      = Some (if truthy dc then Some dc else if truthy mc then Some mc else None)).
    { destruct (truthy dc); [exact (Hd2 eq_refl)|].
      destruct (truthy mc); [exact (Hm2 eq_refl) | reflexivity]. }
    destruct (strict_eq_string (get_opt data (str "type")) (str "content_block_delta"));
      cbn [andb]; [|now rewrite Hgo].
    destruct (strict_eq_string (get_opt (get_opt data (str "delta")) (str "type"))
                (str "text_delta")) eqn:Ht; [|now rewrite Hgo].
    apply strict_eq_string_defined, get_opt_defined in Ht.
    now rewrite (get_defined _ _ Ht).
Qed.

(** A line whose payload parses yields what the precedence says. *)
Lemma process_line_parsed (line text : jsstring) (data : value) :
  payload line = Some text ->
  JSON.parse text = Some data ->
  yielded (process_line line) = Spec.fragment_of data.
Proof.
  intros Hp Hj. unfold process_line. rewrite Hp, Hj.
  pose proof (extract_fragment_of data) as H.
  destruct (extract data) as [[f|]|]; simpl.
  - exact H.
  - exact H.
  - symmetry. exact (proj1 H).
Qed.




(** ** The [data:] prefix *)

(** C5 (the code at the failing input): the line
    [data:{...}] with the choices of [Hi] has the [data:] prefix, and what
    follows the prefix parses as a JSON value that carries the fragment
    [Hi]; but the prefix is not stripped: the whole line goes to the parser,
    which fails on it, and the line is skipped with a warning and yields no
    fragment. *)
Theorem C5_data_prefix_without_space :
  startsWith line_Hi_no_space (str "data:") = true
  /\ (exists data,
         JSON.parse (slice 5 line_Hi_no_space) = Some data
         /\ Spec.fragment_of data = Some (JString (str "Hi")))
  /\ payload line_Hi_no_space = Some line_Hi_no_space
  /\ JSON.parse line_Hi_no_space = None
  /\ process_line line_Hi_no_space = Warn
  /\ fragments {| chunks := [bytes line_Hi_no_space ++ [LF; LF]]; ending := Closed |}
     = [].
Proof.
  split; [reflexivity|]. split.
  { eexists. split; vm_compute; reflexivity. }
  repeat split; vm_compute; reflexivity.
Qed.

(** ** Empty fragments *)

(** C10 (amended): a parsed line whose [choices[0].delta.content] is the
    empty string yields nothing from the incremental branch: it yields
    nothing at all unless it is an Anthropic content delta or carries a
    message content as well.  Every fragment yielded by the two OpenAI-style
    branches is truthy, hence not the empty string; an Anthropic
    [content_block_delta] line with an empty delta text is yielded as the
    empty fragment. *)
Theorem C10_empty_delta_content :
  (forall line text data,
      payload line = Some text ->
      JSON.parse text = Some data ->
      (Spec.at_path data Spec.choices_0_delta_content = JString [] ->
       Spec.is_content_delta data = false ->
       truthy (Spec.at_path data Spec.choices_0_message_content) = false ->
       process_line line = Quiet)
      /\ (forall fragment,
             Spec.is_content_delta data = false ->
             process_line line = Yield fragment ->
             truthy fragment = true /\ fragment <> JString [])
      /\ (Spec.is_content_delta data = true ->
          Spec.at_path data [str "delta"; str "text"] = JString [] ->
          process_line line = Yield (JString [])))
  /\ process_line line_empty_delta = Quiet
  /\ process_line line_empty_text = Yield (JString []).
Proof.
  split; [|split; vm_compute; reflexivity].
  intros line text data Hp Hj.
  pose proof (process_line_parsed line text data Hp Hj) as Hy.
  unfold Spec.fragment_of in Hy.
  split; [|split].
  - intros Hd Ha Hm. rewrite Ha, Hd, Hm in Hy. cbn [truthy] in Hy.
    unfold process_line in *. rewrite Hp, Hj in *.
    pose proof (extract_fragment_of data) as He.
    destruct (extract data) as [[f|]|]; try discriminate; [reflexivity|].
    destruct He as [_ Hn]. destruct data; try discriminate.
  - intros fragment Ha Hf. rewrite Ha, Hf in Hy. cbn [yielded] in Hy.
    assert (Ht : truthy fragment = true).
    { destruct (truthy (Spec.at_path data Spec.choices_0_delta_content)) eqn:H1.
      - injection Hy as ->. exact H1.
      - destruct (truthy (Spec.at_path data Spec.choices_0_message_content)) eqn:H2.
        + injection Hy as ->. exact H2.
        + discriminate. }
    split; [exact Ht|]. intros ->. discriminate.
  - intros Ha Ht. rewrite Ha, Ht in Hy.
    destruct (process_line line); try discriminate. now injection Hy as ->.
Qed.

Lemma C10_witness :
  process_line line_empty_delta = Quiet.
Proof.
  refine (proj1 (proj1 C10_empty_delta_content line_empty_delta
                   (slice 6 line_empty_delta) _ _ _) _ _ _);
    vm_compute; reflexivity.
Defined.

(** The claim as stated fails: a parsed line whose
    [choices[0].delta.content] is the empty string, and whose first choice
    carries a message content as well, produces a fragment. *)
Lemma C10_counterexample :
  exists data,
    JSON.parse (slice 6 line_empty_delta_message) = Some data
    /\ Spec.at_path data Spec.choices_0_delta_content = JString []
    /\ process_line line_empty_delta_message = Yield (JString (str "full"))
    /\ yielded (process_line line_empty_delta_message) <> None.
Proof.
  eexists. split; [vm_compute; reflexivity|]. split; [vm_compute; reflexivity|].
  split; [vm_compute; reflexivity|]. vm_compute. discriminate.
Qed.

(** ** The generator *)

Lemma fragments_of_lines_app (a b : list jsstring) :
  fragments_of_lines (a ++ b) = fragments_of_lines a ++ fragments_of_lines b.
Proof. apply flat_map_app. Qed.

Lemma lines_of_app (a b : jsstring) :
  lines_of (a ++ LF :: b) = lines_of a ++ lines_of b.
Proof. unfold lines_of. now rewrite split_app, filter_app. Qed.

Lemma fragments_of_chunk_app (a b : jsstring) :
  fragments_of_chunk (a ++ LF :: b) = fragments_of_chunk a ++ fragments_of_chunk b.
Proof. unfold fragments_of_chunk. now rewrite lines_of_app, fragments_of_lines_app. Qed.

(** The [for] loop stops at the first line that yields. *)
Lemma run_lines_fragments (ls warned : list jsstring) :
  match run_lines ls warned with
  | (Some (fragment, rest), _) =>
      fragments_of_lines ls = fragment :: fragments_of_lines rest
  | (None, _) => fragments_of_lines ls = []
  end.
Proof.
  revert warned; induction ls as [|line rest IH]; intros warned; simpl;
    [reflexivity|].
  unfold fragments_of_lines in *. simpl.
  destruct (process_line line); simpl.
  - reflexivity.
  - apply IH.
  - apply IH.
Qed.

(** The [while] loop stops at the first chunk with a line that yields, or
    at the end of the stream. *)
Lemma run_reads_fragments (cs : list (list TextDecoder.byte)) (e : StreamEnd) :
  forall d warned,
    match run_reads cs e d warned with
    | (Value fragment, g) =>
        flat_map fragments_of_chunk (decoded d cs) = fragment :: remaining g
        /\ ending (reader g) = e /\ completed g = false
    | (last, g) =>
        flat_map fragments_of_chunk (decoded d cs) = []
        /\ last = end_of e /\ completed g = true /\ locked g = false
    end.
Proof.
  induction cs as [|c cs IH]; intros d warned; simpl.
  - destruct e; simpl; auto.
  - destruct (TextDecoder.decode d c) as [chunk d'] eqn:Hd. simpl.
    pose proof (run_lines_fragments (lines_of chunk) warned) as Hl.
    destruct (run_lines (lines_of chunk) warned) as [[[fragment rest]|] warned'].
    + unfold remaining. simpl. unfold fragments_of_chunk at 1. rewrite Hl.
      auto.
    + specialize (IH d' warned').
      assert (Hc : fragments_of_chunk chunk = []) by exact Hl.
      rewrite Hc. exact IH.
Qed.

(** One call of [next] delivers the first of the remaining fragments, or
    finds none and completes the generator. *)
Lemma next_remaining (g : Generator) :
  match next g with
  | (Value fragment, g') =>
      remaining g = fragment :: remaining g'
      /\ ending (reader g') = ending (reader g) /\ completed g' = false
  | (last, g') =>
      remaining g = [] /\ completed g' = true
      /\ (completed g = false -> last = end_of (ending (reader g)) /\ locked g' = false)
  end.
Proof.
  unfold next, remaining. destruct (completed g) eqn:Hc.
  - rewrite Hc. split; [reflexivity|]. split; [reflexivity|]. discriminate.
  - pose proof (run_lines_fragments (lines g) (console g)) as Hl.
    destruct (run_lines (lines g) (console g)) as [[[fragment rest]|] warned'].
    + simpl. rewrite Hl. auto.
    + rewrite Hl. simpl.
      pose proof (run_reads_fragments (chunks (reader g)) (ending (reader g))
                    (decoder g) warned') as Hr.
      destruct (run_reads (chunks (reader g)) (ending (reader g)) (decoder g) warned')
        as [[fragment| |reason] g'].
      * destruct Hr as (Hr & He & Hc'). unfold remaining in Hr. now rewrite Hc' in *.
      * destruct Hr as (Hr & He & Hc' & Hl'). rewrite Hc'. auto.
      * destruct Hr as (Hr & He & Hc' & Hl'). rewrite Hc'. auto.
Qed.

(** A completed generator stays completed. *)
Lemma next_completed (g : Generator) : completed g = true -> next g = (Done, g).
Proof. intros H. unfold next. now rewrite H. Qed.

(** Draining a generator that has not completed delivers the remaining
    fragments and then the end of its stream, in one call of [next] more
    than there are fragments. *)
Lemma drain_remaining (n : nat) :
  forall g, completed g = false -> (List.length (remaining g) < n)%nat ->
    exists g', drain n g = (remaining g, Some (end_of (ending (reader g)), g'))
               /\ completed g' = true /\ locked g' = false.
Proof.
  induction n as [|n IH]; intros g Hc Hlen; [lia|].
  simpl. pose proof (next_remaining g) as Hn.
  destruct (next g) as [[fragment| |reason] g1].
  - destruct Hn as (Hr & He & Hc1). rewrite Hr in Hlen. simpl in Hlen.
    destruct (IH g1 Hc1 ltac:(lia)) as (g' & Hd & Hc' & Hl').
    exists g'. rewrite Hd, Hr, He. auto.
  - destruct Hn as (Hr & Hc1 & Hlast). destruct (Hlast Hc) as [Hlast' Hl'].
    exists g1. rewrite Hr, <- Hlast'. auto.
  - destruct Hn as (Hr & Hc1 & Hlast). destruct (Hlast Hc) as [Hlast' Hl'].
    exists g1. rewrite Hr, <- Hlast'. auto.
Qed.

(** ** The end of the sequence *)

(** C2 (amended): the fragment sequence is finite, consumable exactly once
    and forward-only, and it ends when the underlying byte stream ends, and
    only then: draining the generator delivers the fragments of all the
    chunks in one call of [next] more than there are fragments, each call
    delivering the first of the fragments that remain; then the generator
    has completed, has released the reader's lock, and every further call
    reports the end again.  A sentinel line yields nothing and does not end
    the sequence.  In particular the line of [Hi] followed by the sentinel
    yields exactly the fragment [Hi] and then the end. *)
Theorem C2_sequence_ends_with_stream :
  (forall stream n,
      (List.length (fragments stream) < n)%nat ->
      exists g',
        drain n (streamChatResponse stream)
        = (fragments stream, Some (end_of (ending stream), g'))
        /\ completed g' = true /\ locked g' = false
        /\ next g' = (Done, g'))
  /\ (forall g fragment g',
         next g = (Value fragment, g') ->
         remaining g = fragment :: remaining g')
  /\ (forall a b,
         fragments_of_chunk (a ++ LF :: SENTINEL ++ LF :: b)
         = fragments_of_chunk a ++ fragments_of_chunk b)
  /\ (exists g',
         drain 2 (streamChatResponse stream_Hi_DONE)
         = ([JString (str "Hi")], Some (Done, g'))).
Proof.
  assert (Hdrain : forall stream n,
      (List.length (fragments stream) < n)%nat ->
      exists g',
        drain n (streamChatResponse stream)
        = (fragments stream, Some (end_of (ending stream), g'))
        /\ completed g' = true /\ locked g' = false
        /\ next g' = (Done, g')).
  { intros stream n Hn.
    destruct (drain_remaining n (streamChatResponse stream) eq_refl Hn)
      as (g' & Hd & Hc & Hl).
    exists g'. repeat split; auto. now apply next_completed. }
  split; [exact Hdrain|]. split; [|split].
  - intros g fragment g' Hn. pose proof (next_remaining g) as H.
    rewrite Hn in H. exact (proj1 H).
  - intros a b.
    change (a ++ LF :: SENTINEL ++ LF :: b) with (a ++ LF :: (SENTINEL ++ LF :: b)).
    now rewrite !fragments_of_chunk_app.
  - destruct (Hdrain stream_Hi_DONE 2%nat) as (g' & Hd & _).
    + vm_compute. lia.
    + exists g'. rewrite Hd. vm_compute. reflexivity.
Qed.

Lemma C2_witness :
  exists g',
    drain 2 (streamChatResponse stream_Hi_DONE)
    = (fragments stream_Hi_DONE, Some (Done, g'))
    /\ completed g' = true /\ locked g' = false /\ next g' = (Done, g').
Proof.
  refine (proj1 C2_sequence_ends_with_stream stream_Hi_DONE 2%nat _).
  vm_compute. lia.
Defined.

(** The claim as stated fails: with a chunk after the one that holds the
    sentinel, the generator goes on past the sentinel and yields the later
    fragment, where a sequence that ends at the sentinel has [Hi] only. *)
Lemma C2_counterexample :
  fst (drain 3 (streamChatResponse stream_Hi_DONE_Yo))
  = [JString (str "Hi"); JString (str "Yo")]
  /\ Spec.normalize stream_Hi_DONE_Yo = [JString (str "Hi")]
  /\ fst (drain 3 (streamChatResponse stream_Hi_DONE_Yo))
     <> Spec.normalize stream_Hi_DONE_Yo.
Proof.
  split; [vm_compute; reflexivity|]. split; [vm_compute; reflexivity|].
  vm_compute. discriminate.
Qed.

(** ** Lines that fail to parse *)

(** C6: a [data:] line whose payload fails to parse as JSON is skipped (the
    [catch] only warns): the line yields nothing, the fragments of the
    lines before and after it in the chunk are yielded as if it were not
    there, and the generator still ends as its stream ends.  In particular
    [data: not-json] between the lines of [Hi] and of [Yo] leaves exactly
    these two fragments, and then the end, with that one line warned about
    on the console. *)
Theorem C6_unparsable_line_skipped :
  (forall line text,
      payload line = Some text ->
      JSON.parse text = None ->
      ~ In LF line ->
      process_line line = Warn
      /\ (forall a b,
             fragments_of_chunk (a ++ LF :: line ++ LF :: b)
             = fragments_of_chunk a ++ fragments_of_chunk b)
      /\ (forall before after e n,
             let stream := {| chunks := before ++ [bytes line ++ [LF]] ++ after;
                              ending := e |} in
             (List.length (fragments stream) < n)%nat ->
             exists g',
               drain n (streamChatResponse stream)
               = (fragments stream, Some (end_of e, g'))))
  /\ process_line line_not_json = Warn
  /\ (exists g',
         drain 3 (streamChatResponse stream_Hi_bad_Yo)
         = ([JString (str "Hi"); JString (str "Yo")], Some (Done, g'))
         /\ console g' = [line_not_json]).
Proof.
  split; [|split].
  - intros line text Hp Hj Hlf.
    assert (Hw : process_line line = Warn).
    { unfold process_line. now rewrite Hp, Hj. }
    split; [exact Hw|]. split.
    + intros a b.
      change (a ++ LF :: line ++ LF :: b) with (a ++ LF :: (line ++ LF :: b)).
      rewrite !fragments_of_chunk_app.
      assert (Hl : fragments_of_chunk line = []).
      { unfold fragments_of_chunk, lines_of. rewrite (split_one LF line Hlf).
        simpl. destruct (_ && _); [|reflexivity].
        unfold fragments_of_lines. simpl. now rewrite Hw. }
      now rewrite Hl.
    + intros before after e n stream Hn.
      destruct (drain_remaining n (streamChatResponse stream) eq_refl Hn)
        as (g' & Hd & _).
      exists g'. exact Hd.
  - vm_compute. reflexivity.
  - eexists. split; vm_compute; reflexivity.
Qed.

Lemma C6_witness :
  process_line line_not_json = Warn
  /\ (forall a b,
         fragments_of_chunk (a ++ LF :: line_not_json ++ LF :: b)
         = fragments_of_chunk a ++ fragments_of_chunk b)
  /\ (forall before after e n,
         let stream := {| chunks := before ++ [bytes line_not_json ++ [LF]] ++ after;
                          ending := e |} in
         (List.length (fragments stream) < n)%nat ->
         exists g',
           drain n (streamChatResponse stream)
           = (fragments stream, Some (end_of e, g'))).
Proof.
  refine (proj1 C6_unparsable_line_skipped line_not_json (slice 6 line_not_json) _ _ _).
  - vm_compute. reflexivity.
  - vm_compute. reflexivity.
  - vm_compute. intuition discriminate.
Defined.

(** ** Decoding in chunks *)

Import TextDecoder.

Lemma utf8_run_app (a b : list byte) :
  forall st,
    utf8_run st (a ++ b)
    = let '(o1, st1) := utf8_run st a in
      let '(o2, st2) := utf8_run st1 b in
      (o1 ++ o2, st2).
Proof.
  induction a as [|x a IH]; intros st; simpl.
  - now destruct (utf8_run st b).
  - destruct (utf8_step st x) as [o1 st1]. rewrite IH.
    destruct (utf8_run st1 a) as [o2 st2].
    destruct (utf8_run st2 b) as [o3 st3].
    now rewrite app_assoc.
Qed.

Lemma serialize_app (seen : bool) (o1 o2 : list Z) :
  serialize seen (o1 ++ o2)
  = let '(x1, s1) := serialize seen o1 in
    let '(x2, s2) := serialize s1 o2 in
    (x1 ++ x2, s2).
Proof.
  destruct seen; simpl; [reflexivity|].
  destruct o1 as [|cp r]; simpl.
  - now destruct o2.
  - now destruct (cp =? BOM).
Qed.

(** Decoding a chunk in two pieces, the decoder carried from the first to
    the second, is decoding it at once. *)
Lemma decode_app (d : TextDecoder.t) (a b : list byte) :
  decode d (a ++ b)
  = let '(t1, d1) := decode d a in
    let '(t2, d2) := decode d1 b in
    (t1 ++ t2, d2).
Proof.
  unfold decode. rewrite utf8_run_app.
  destruct (utf8_run (utf8 d) a) as [o1 st1].
  destruct (serialize (bom_seen d) o1) as [x1 s1] eqn:Hs1. cbn [utf8 bom_seen].
  destruct (utf8_run st1 b) as [o2 st2].
  rewrite serialize_app, Hs1.
  destruct (serialize s1 o2) as [x2 s2].
  now rewrite flat_map_app.
Qed.

(** The texts of the successive reads make up the text of the whole
    stream. *)
Lemma decoded_concat (cs : list (list byte)) :
  forall d, List.concat (decoded d cs) = fst (decode d (List.concat cs)).
Proof.
  induction cs as [|c cs IH]; intros d; simpl.
  - unfold decode. simpl. now destruct (bom_seen d).
  - rewrite decode_app. destruct (decode d c) as [t1 d1]. simpl.
    rewrite IH. now destruct (decode d1 (List.concat cs)).
Qed.

(** ** Encoding and decoding one scalar value *)

Lemma land_mul_pow2_small (c n y : Z) :
  0 <= n -> 0 <= y < 2 ^ n -> Z.land (c * 2 ^ n) y = 0.
Proof.
  intros Hn Hy. apply Z.bits_inj'. intros m Hm.
  rewrite Z.land_spec, Z.bits_0.
  destruct (Z.ltb_spec m n) as [Hlt|Hge].
  - now rewrite Z.mul_pow2_bits_low.
  - destruct (Z.eq_dec y 0) as [->|Hy0].
    + now rewrite Z.bits_0, andb_false_r.
    + rewrite (Z.bits_above_log2 y m), andb_false_r; [reflexivity | lia |].
      apply Z.log2_lt_pow2; [lia|].
      apply Z.lt_le_trans with (2 ^ n); [lia|].
      apply Z.pow_le_mono_r; lia.
Qed.

(** Below a left shift, [lor] is addition. *)
Lemma lor_shiftl (c n y : Z) :
  0 <= n -> 0 <= y < 2 ^ n -> Z.lor (Z.shiftl c n) y = c * 2 ^ n + y.
Proof.
  intros Hn Hy. rewrite Z.shiftl_mul_pow2 by exact Hn.
  pose proof (Z.add_lor_land (c * 2 ^ n) y) as H.
  rewrite (land_mul_pow2_small c n y Hn Hy) in H. lia.
Qed.

Lemma land_low (b n : Z) : 0 <= n -> Z.land b (Z.ones n) = b mod 2 ^ n.
Proof. apply Z.land_ones. Qed.

Ltac decide_tests :=
  repeat match goal with
         | |- context [?a <=? ?b] => destruct (Z.leb_spec a b); try lia
         | |- context [?a <? ?b] => destruct (Z.ltb_spec a b); try lia
         | |- context [?a =? ?b] => destruct (Z.eqb_spec a b); try lia
         end.

(** The step of the decoder on a continuation byte within bounds. *)
Lemma utf8_step_continue (st : utf8_state) (b : byte) :
  bytes_needed st <> 0 ->
  lower_boundary st <= b <= upper_boundary st ->
  0x80 <= b <= 0xBF ->
  utf8_step st b
  = let cp := code_point st * 64 + (b - 0x80) in
    if bytes_seen st + 1 =? bytes_needed st then ([cp], utf8_init)
    else ([], {| code_point := cp; bytes_seen := bytes_seen st + 1;
                 bytes_needed := bytes_needed st;
                 lower_boundary := 0x80; upper_boundary := 0xBF |}).
Proof.
  intros Hn Hb Hc. unfold utf8_step.
  destruct (Z.eqb_spec (bytes_needed st) 0) as [|_]; [contradiction|].
  destruct (Z.ltb_spec b (lower_boundary st)); [lia|].
  destruct (Z.ltb_spec (upper_boundary st) b); [lia|]. cbn [orb].
  change 0x3F with (Z.ones 6). rewrite land_low by lia.
  assert (Hm : b mod 2 ^ 6 = b - 0x80).
  { change (2 ^ 6) with 64. symmetry. apply (Z.mod_unique b 64 2); lia. }
  rewrite Hm, lor_shiftl by (change (2 ^ 6) with 64; lia).
  reflexivity.
Qed.

Lemma shiftr_div (cp n : Z) : 0 <= n -> Z.shiftr cp n = cp / 2 ^ n.
Proof. apply Z.shiftr_div_pow2. Qed.

(** The bytes of a scalar value, in arithmetic. *)
Lemma encode_scalar_bytes (cp : Z) :
  0 <= cp <= 0x10FFFF ->
  encode_scalar cp
  = if cp <=? 0x7F then [cp]
    else if cp <=? 0x7FF then [0xC0 + cp / 64; 0x80 + cp mod 64]
    else if cp <=? 0xFFFF then
      [0xE0 + cp / 4096; 0x80 + (cp / 64) mod 64; 0x80 + cp mod 64]
    else
      [0xF0 + cp / 262144; 0x80 + (cp / 4096) mod 64;
       0x80 + (cp / 64) mod 64; 0x80 + cp mod 64].
Proof.
  intros Hcp. unfold encode_scalar.
  change 0x3F with (Z.ones 6). rewrite !land_low by lia.
  rewrite !shiftr_div by lia.
  change (2 ^ 6) with 64. change (2 ^ 12) with 4096. change (2 ^ 18) with 262144.
  assert (H80 : forall y, 0 <= y < 64 -> Z.lor 0x80 y = 0x80 + y).
  { intros y Hy. change 0x80 with (Z.shiftl 2 6).
    rewrite lor_shiftl by (change (2 ^ 6) with 64; lia). reflexivity. }
  assert (Hlow : forall x, 0 <= x mod 64 < 64) by (intros; apply Z.mod_pos_bound; lia).
  rewrite !H80 by apply Hlow.
  destruct (Z.leb_spec cp 0x7F); [reflexivity|].
  destruct (Z.leb_spec cp 0x7FF).
  { change 0xC0 with (Z.shiftl 6 5). rewrite lor_shiftl; [reflexivity | lia |].
    change (2 ^ 5) with 32. split; [apply Z.div_pos; lia|].
    apply Z.div_lt_upper_bound; lia. }
  destruct (Z.leb_spec cp 0xFFFF).
  { change 0xE0 with (Z.shiftl 14 4). rewrite lor_shiftl; [reflexivity | lia |].
    change (2 ^ 4) with 16. split; [apply Z.div_pos; lia|].
    apply Z.div_lt_upper_bound; lia. }
  change 0xF0 with (Z.shiftl 30 3). rewrite lor_shiftl; [reflexivity | lia |].
  change (2 ^ 3) with 8. split; [apply Z.div_pos; lia|].
  apply Z.div_lt_upper_bound; lia.
Qed.

Lemma utf8_lead_2 (b : byte) :
  0xC2 <= b <= 0xDF ->
  utf8_lead b
  = ([], {| code_point := b - 0xC0; bytes_seen := 0; bytes_needed := 1;
            lower_boundary := 0x80; upper_boundary := 0xBF |}).
Proof.
  intros Hb. unfold utf8_lead.
  change 0x1F with (Z.ones 5). rewrite land_low by lia.
  replace (b mod 2 ^ 5) with (b - 0xC0)
    by (change (2 ^ 5) with 32; apply (Z.mod_unique b 32 6); lia).
  decide_tests; reflexivity.
Qed.

Lemma utf8_lead_3 (b : byte) :
  0xE0 <= b <= 0xEF ->
  utf8_lead b
  = ([], {| code_point := b - 0xE0; bytes_seen := 0; bytes_needed := 2;
            lower_boundary := if b =? 0xE0 then 0xA0 else 0x80;
            upper_boundary := if b =? 0xED then 0x9F else 0xBF |}).
Proof.
  intros Hb. unfold utf8_lead.
  change 0xF with (Z.ones 4). rewrite land_low by lia.
  replace (b mod 2 ^ 4) with (b - 0xE0)
    by (change (2 ^ 4) with 16; apply (Z.mod_unique b 16 14); lia).
  destruct (Z.leb_spec 0 b); [|lia].
  destruct (Z.leb_spec b 0x7F); [lia|].
  destruct (Z.leb_spec 0xC2 b); [|lia].
  destruct (Z.leb_spec b 0xDF); [lia|].
  destruct (Z.leb_spec 0xE0 b); [|lia].
  destruct (Z.leb_spec b 0xEF); [|lia].
  reflexivity.
Qed.

Lemma utf8_lead_4 (b : byte) :
  0xF0 <= b <= 0xF4 ->
  utf8_lead b
  = ([], {| code_point := b - 0xF0; bytes_seen := 0; bytes_needed := 3;
            lower_boundary := if b =? 0xF0 then 0x90 else 0x80;
            upper_boundary := if b =? 0xF4 then 0x8F else 0xBF |}).
Proof.
  intros Hb. unfold utf8_lead.
  change 0x7 with (Z.ones 3). rewrite land_low by lia.
  replace (b mod 2 ^ 3) with (b - 0xF0)
    by (change (2 ^ 3) with 8; apply (Z.mod_unique b 8 30); lia).
  destruct (Z.leb_spec 0 b); [|lia].
  destruct (Z.leb_spec b 0x7F); [lia|].
  destruct (Z.leb_spec 0xC2 b); [|lia].
  destruct (Z.leb_spec b 0xDF); [lia|].
  destruct (Z.leb_spec 0xE0 b); [|lia].
  destruct (Z.leb_spec b 0xEF); [lia|].
  destruct (Z.leb_spec 0xF0 b); [|lia].
  destruct (Z.leb_spec b 0xF4); [|lia].
  reflexivity.
Qed.

(** Decoding the bytes of a scalar value from the initial state gives the
    scalar value back and leaves the decoder in the initial state. *)
Lemma utf8_run_encode_scalar (cp : Z) :
  is_scalar cp = true ->
  utf8_run utf8_init (encode_scalar cp) = ([cp], utf8_init).
Proof.
  unfold is_scalar. intros Hs.
  apply andb_true_iff in Hs as [Hs Hsur]. apply andb_true_iff in Hs as [H0 Hmax].
  apply Z.leb_le in H0, Hmax. apply negb_true_iff in Hsur.
  assert (Hns : cp < 0xD800 \/ 0xDFFF < cp).
  { destruct (Z.leb_spec 0xD800 cp), (Z.leb_spec cp 0xDFFF);
      simpl in Hsur; try discriminate; lia. }
  clear Hsur.
  rewrite encode_scalar_bytes by lia.
  destruct (Z.leb_spec cp 0x7F) as [H1|H1].
  { simpl. unfold utf8_step, utf8_lead. simpl.
    destruct (Z.leb_spec 0 cp); [|lia].
    destruct (Z.leb_spec cp 0x7F); [|lia]. reflexivity. }
  pose proof (Z.div_mod cp 64 ltac:(lia)) as Hdm.
  pose proof (Z.mod_pos_bound cp 64 ltac:(lia)) as Hm.
  destruct (Z.leb_spec cp 0x7FF) as [H2|H2].
  { cbn [utf8_run].
    assert (Hh : 2 <= cp / 64 <= 31) by lia.
    replace (utf8_step utf8_init (0xC0 + cp / 64))
      with (utf8_lead (0xC0 + cp / 64)) by reflexivity.
    rewrite utf8_lead_2 by lia.
    rewrite utf8_step_continue; cbn [bytes_needed lower_boundary upper_boundary
                                       code_point bytes_seen]; try lia.
    cbv zeta. simpl (0 + 1 =? 1). cbv iota.
    replace ((0xC0 + cp / 64 - 0xC0) * 64 + (0x80 + cp mod 64 - 0x80)) with cp by lia.
    reflexivity. }
  pose proof (Z.div_mod (cp / 64) 64 ltac:(lia)) as Hdm2.
  pose proof (Z.mod_pos_bound (cp / 64) 64 ltac:(lia)) as Hm2.
  assert (Hq2 : cp / 4096 = cp / 64 / 64)
    by (rewrite Z.div_div by lia; reflexivity).
  destruct (Z.leb_spec cp 0xFFFF) as [H3|H3].
  { cbn [utf8_run].
    assert (Hh : 0 <= cp / 4096 <= 15) by lia.
    replace (utf8_step utf8_init (0xE0 + cp / 4096))
      with (utf8_lead (0xE0 + cp / 4096)) by reflexivity.
    rewrite utf8_lead_3 by lia.
    rewrite utf8_step_continue; cbn [bytes_needed lower_boundary upper_boundary
                                       code_point bytes_seen]; try lia.
    2:{ destruct (Z.eqb_spec (0xE0 + cp / 4096) 0xE0),
                 (Z.eqb_spec (0xE0 + cp / 4096) 0xED); lia. }
    cbv zeta. simpl (0 + 1 =? 2). cbv iota.
    rewrite utf8_step_continue; cbn [bytes_needed lower_boundary upper_boundary
                                       code_point bytes_seen]; try lia.
    cbv zeta. simpl (0 + 1 + 1 =? 2). cbv iota.
    replace (((0xE0 + cp / 4096 - 0xE0) * 64 + (0x80 + (cp / 64) mod 64 - 0x80)) * 64
             + (0x80 + cp mod 64 - 0x80)) with cp by lia.
    reflexivity. }
  pose proof (Z.div_mod (cp / 4096) 64 ltac:(lia)) as Hdm3.
  pose proof (Z.mod_pos_bound (cp / 4096) 64 ltac:(lia)) as Hm3.
  assert (Hq3 : cp / 262144 = cp / 4096 / 64)
    by (rewrite Z.div_div by lia; reflexivity).
  cbn [utf8_run].
  assert (Hh : 0 <= cp / 262144 <= 4) by lia.
  replace (utf8_step utf8_init (0xF0 + cp / 262144))
    with (utf8_lead (0xF0 + cp / 262144)) by reflexivity.
  rewrite utf8_lead_4 by lia.
  rewrite utf8_step_continue; cbn [bytes_needed lower_boundary upper_boundary
                                     code_point bytes_seen]; try lia.
  2:{ destruct (Z.eqb_spec (0xF0 + cp / 262144) 0xF0),
               (Z.eqb_spec (0xF0 + cp / 262144) 0xF4); lia. }
  cbv zeta. simpl (0 + 1 =? 3). cbv iota.
  rewrite utf8_step_continue; cbn [bytes_needed lower_boundary upper_boundary
                                     code_point bytes_seen]; try lia.
  cbv zeta. simpl (0 + 1 + 1 =? 3). cbv iota.
  rewrite utf8_step_continue; cbn [bytes_needed lower_boundary upper_boundary
                                     code_point bytes_seen]; try lia.
  cbv zeta. simpl (0 + 1 + 1 + 1 =? 3). cbv iota.
  replace ((((0xF0 + cp / 262144 - 0xF0) * 64 + (0x80 + (cp / 4096) mod 64 - 0x80)) * 64
            + (0x80 + (cp / 64) mod 64 - 0x80)) * 64
           + (0x80 + cp mod 64 - 0x80)) with cp by lia.
  reflexivity.
Qed.

Lemma utf8_run_encode (cps : list Z) :
  forallb is_scalar cps = true ->
  utf8_run utf8_init (utf8_encode cps) = (cps, utf8_init).
Proof.
  induction cps as [|cp cps IH]; simpl; intros H; [reflexivity|].
  apply andb_true_iff in H as [Hcp Hcps].
  unfold utf8_encode in *. simpl. rewrite utf8_run_app.
  now rewrite (utf8_run_encode_scalar cp Hcp), (IH Hcps).
Qed.

(** A fresh decoder gives a valid text back, less a leading byte order
    mark. *)
Lemma decode_encode (cps : list Z) :
  forallb is_scalar cps = true ->
  fst (decode TextDecoder.create (utf8_encode cps)) = flat_map utf16 (without_bom cps).
Proof.
  intros H. unfold decode. simpl. rewrite (utf8_run_encode cps H). simpl.
  destruct cps as [|cp r]; [reflexivity|]. simpl.
  now destruct (cp =? BOM).
Qed.

(** *** The decoder of the generator *)

Lemma decode_nil (d : TextDecoder.t) : decode d [] = ([], d).
Proof. destruct d as [u b]. unfold decode. simpl. destruct b; reflexivity. Qed.

Lemma decode_snd_app (d : TextDecoder.t) (a b : list byte) :
  snd (decode d (a ++ b)) = snd (decode (snd (decode d a)) b).
Proof.
  rewrite decode_app. destruct (decode d a) as [t1 d1]. simpl.
  now destruct (decode d1 b).
Qed.

Lemma run_reads_decoder (cs : list (list byte)) (e : StreamEnd) :
  forall d warned,
    decoder_due (snd (run_reads cs e d warned)) = snd (decode d (List.concat cs)).
Proof.
  induction cs as [|value cs IH]; intros d warned.
  - simpl. unfold decoder_due. simpl. now rewrite decode_nil.
  - cbn [run_reads List.concat]. rewrite decode_snd_app.
    destruct (decode d value) as [chunk d']. cbn [snd].
    destruct (run_lines (lines_of chunk) warned) as [[[fragment rest]|] warned'].
    + reflexivity.
    + apply IH.
Qed.

Lemma next_decoder (g : Generator) : decoder_due (snd (next g)) = decoder_due g.
Proof.
  unfold next. destruct (completed g) eqn:Hc; [reflexivity|].
  destruct (run_lines (lines g) (console g)) as [[[fragment rest]|] warned'].
  - unfold decoder_due. simpl. now rewrite Hc.
  - rewrite run_reads_decoder. unfold decoder_due. now rewrite Hc.
Qed.

Lemma drain_decoder (n : nat) :
  forall g fs last g',
    drain n g = (fs, Some (last, g')) -> decoder_due g' = decoder_due g.
Proof.
  induction n as [|n IH]; intros g fs last g' H; [discriminate|].
  simpl in H. pose proof (next_decoder g) as Hn.
  destruct (next g) as [[fragment| |reason] g1]; simpl in Hn.
  - destruct (drain n g1) as [fs1 r1] eqn:Hd.
    injection H as _ ->. rewrite <- Hn. eapply IH. exact Hd.
  - injection H as _ _ <-. exact Hn.
  - injection H as _ _ <-. exact Hn.
Qed.

(** C8: text decoding in [streamChatResponse] carries partial multi-byte
    sequences over to the next read.  Decoding a byte sequence in two chunks,
    the decoder's state carried from the first to the second, produces the
    same text (and leaves the same state) as decoding it at once, wherever it
    is split.  The generator does so: run to its end, it has yielded the
    fragments of the texts that the successive reads decode with the state
    carried over, texts that joined are the decoding of all the bytes at
    once, and its decoder is in the state that decoding all the bytes at
    once leaves.  For a valid encoding of scalar values the text is the
    correct one: a code point split across two reads decodes to its own
    character (one code unit, or its surrogate pair), as [C3|A9] does to
    U+00E9 and [F0 9F|98 80] to U+1F600.  A byte order mark cut by the reads
    is still recognised, and the line after it yields its fragment, which
    the second read decoded alone would not give. *)
Theorem C8_decoding_carries_over :
  (forall d a b,
      decode d (a ++ b)
      = let '(t1, d1) := decode d a in
        let '(t2, d2) := decode d1 b in
        (t1 ++ t2, d2))
  /\ (forall stream n,
         (List.length (fragments stream) < n)%nat ->
         exists g',
           drain n (streamChatResponse stream)
           = (flat_map fragments_of_chunk
                (decoded TextDecoder.create (chunks stream)),
              Some (end_of (ending stream), g'))
           /\ decoder g'
              = snd (decode TextDecoder.create (List.concat (chunks stream))))
  /\ (forall stream,
         List.concat (decoded TextDecoder.create (chunks stream))
         = fst (decode TextDecoder.create (List.concat (chunks stream))))
  /\ (forall cps a b,
         forallb is_scalar cps = true ->
         utf8_encode cps = a ++ b ->
         List.concat (decoded TextDecoder.create [a; b])
         = flat_map utf16 (without_bom cps))
  /\ decoded TextDecoder.create [[0xC3]; [0xA9]] = [[]; [0xE9]]
  /\ decoded TextDecoder.create [[0xF0; 0x9F]; [0x98; 0x80]] = [[]; [0xD83D; 0xDE00]]
  /\ fst (drain 2 (streamChatResponse stream_bom_cut)) = [JString (str "Hi")]
  /\ fragments_of_chunk
       (fst (decode TextDecoder.create ([0xBF] ++ bytes line_Hi ++ [LF]))) = [].
Proof.
  split; [exact decode_app|].
  split.
  { intros stream n Hn.
    destruct (drain_remaining n (streamChatResponse stream) eq_refl Hn)
      as (g' & Hd & Hc & _).
    exists g'. split; [exact Hd|].
    pose proof (drain_decoder n _ _ _ _ Hd) as H.
    unfold decoder_due in H. rewrite Hc in H. exact H. }
  split; [intros; apply decoded_concat|].
  split; [|repeat split; vm_compute; reflexivity].
  intros cps a b Hs He.
  rewrite decoded_concat. simpl List.concat. rewrite app_nil_r, <- He.
  now apply decode_encode.
Qed.

Lemma C8_witness :
  (exists g',
      drain 2 (streamChatResponse stream_bom_cut)
      = ([JString (str "Hi")], Some (Done, g'))
      /\ decoder g'
         = snd (decode TextDecoder.create (List.concat (chunks stream_bom_cut))))
  /\ List.concat (decoded TextDecoder.create [[0xE2; 0x82]; [0xAC]])
     = flat_map utf16 (without_bom [0x20AC]).
Proof.
  split.
  - apply (proj1 (proj2 C8_decoding_carries_over) stream_bom_cut 2%nat).
    vm_compute. lia.
  - refine (proj1 (proj2 (proj2 (proj2 C8_decoding_carries_over)))
              [0x20AC] [0xE2; 0x82] [0xAC] _ _);
      vm_compute; reflexivity.
Defined.

(** The decoder carries the bytes of a character over; the lines are not
    carried over: a line cut in two by the reads is decoded correctly, each
    part is taken for a line of its own, and its fragment is lost. *)
Remark line_cut_by_reads :
  decoded TextDecoder.create (chunks stream_cut_line)
  = [json_text "data: {'choices':[{'delta':{'content':'caf";
     [0xE9] ++ json_text "'}}]}" ++ [LF; LF]]
  /\ fragments stream_cut_line = [].
Proof. split; vm_compute; reflexivity. Qed.

(** ** The Anthropic adapter *)

Lemma anthropicMessages_nonblank (chatRequest : ChatRequest.t) :
  anthropicMessages chatRequest
  = Spec.claude_messages_nonblank (ChatRequest.messages chatRequest).
Proof.
  unfold anthropicMessages.
  induction (ChatRequest.messages chatRequest) as [|m ms IH]; simpl; [reflexivity|].
  rewrite trim_blank.
  destruct (Spec.blank (content m)) eqn:Hb; simpl.
  - rewrite andb_false_r. exact IH.
  - assert (Hne : nonempty (content m) = true).
    { destruct (content m); [discriminate | reflexivity]. }
    rewrite Hne. simpl. rewrite IH. f_equal.
    destruct (role m); reflexivity.
Qed.

(** Without messages of white space only, blank means empty. *)
Lemma claude_messages_nonblank_eq (ms : list Message) :
  (forall m, In m ms -> Spec.blank (content m) = true -> content m = []) ->
  Spec.claude_messages_nonblank ms = Spec.claude_messages ms.
Proof.
  induction ms as [|m ms IH]; intros H; simpl; [reflexivity|].
  destruct (Spec.blank (content m)) eqn:Hb.
  - rewrite (H m (or_introl eq_refl) Hb). apply IH.
    intros m' Hin. apply H. now right.
  - destruct (content m) as [|u r] eqn:Hc; [discriminate|].
    rewrite IH; [reflexivity|]. intros m' Hin. apply H. now right.
Qed.

(** C3 (amended): for the Anthropic adapter the transmitted request body
    equals the reference definition with blank messages removed: its
    messages are the input messages with every message of empty or
    white-space-only content removed and role system rewritten to user, its
    [max_tokens] is 16000 when streaming and 4096 otherwise, and it goes to
    the local proxy; if no message survives the filter the call fails with
    EmptyRequest and transmits nothing.  Where no message is white space
    only, these are the messages of the reference definition as worded. *)
Theorem C3_claude_request_body :
  forall w apiUrl apiKey chatRequest,
    let kept := Spec.claude_messages_nonblank (ChatRequest.messages chatRequest) in
    (kept = [] ->
     sendClaudeRequest w apiUrl apiKey chatRequest = ([], Throw EmptyRequest))
    /\ (kept <> [] ->
        fst (sendClaudeRequest w apiUrl apiKey chatRequest)
        = [Fetch
             {| url := str "/api/proxy/claude";
                headers := [(str "Content-Type", str "application/json");
                            (str "x-api-key", apiKey)];
                body :=
                  BodyClaude
                    {| ClaudeBody.model := ChatRequest.model chatRequest;
                       ClaudeBody.max_tokens :=
                         Spec.claude_max_tokens (ChatRequest.stream chatRequest);
                       ClaudeBody.messages := kept;
                       ClaudeBody.stream := ChatRequest.stream chatRequest |} |}])
    /\ ((forall m, In m (ChatRequest.messages chatRequest) ->
                   Spec.blank (content m) = true -> content m = []) ->
        kept = Spec.claude_messages (ChatRequest.messages chatRequest)).
Proof.
  intros w apiUrl apiKey chatRequest kept. subst kept.
  unfold sendClaudeRequest. rewrite anthropicMessages_nonblank.
  split; [|split].
  - intros ->. reflexivity.
  - intros Hne.
    destruct (Spec.claude_messages_nonblank (ChatRequest.messages chatRequest));
      [contradiction|]. reflexivity.
  - apply claude_messages_nonblank_eq.
Qed.

Lemma C3_witness :
  fst (sendClaudeRequest offline [] (str "key")
         (a_request [says system "Be brief."; says user ""; says user "Hello"] true))
  = [Fetch
       {| url := str "/api/proxy/claude";
          headers := [(str "Content-Type", str "application/json");
                      (str "x-api-key", str "key")];
          body :=
            BodyClaude
              {| ClaudeBody.model := str "a-model";
                 ClaudeBody.max_tokens := 16000;
                 ClaudeBody.messages := [says user "Be brief."; says user "Hello"];
                 ClaudeBody.stream := true |} |}].
Proof.
  refine (proj1 (proj2 (C3_claude_request_body offline [] (str "key")
            (a_request [says system "Be brief."; says user ""; says user "Hello"] true)))
            _).
  vm_compute. discriminate.
Defined.

(** The claim as stated fails: a message of white space only is not an
    empty-content message, yet it is removed; the body transmitted differs
    from the reference definition. *)
Lemma C3_counterexample :
  exists call requestBody,
    fst (sendClaudeRequest offline [] (str "key")
           (a_request [says user " "; says user "Hello"] false))
    = [Fetch call]
    /\ body call = BodyClaude requestBody
    /\ ClaudeBody.messages requestBody = [says user "Hello"]
    /\ Spec.claude_messages [says user " "; says user "Hello"]
       = [says user " "; says user "Hello"]
    /\ ClaudeBody.messages requestBody
       <> Spec.claude_messages [says user " "; says user "Hello"].
Proof.
  eexists. eexists. split; [vm_compute; reflexivity|].
  split; [reflexivity|]. split; [reflexivity|]. split; [reflexivity|].
  vm_compute. discriminate.
Qed.

(** ** The flow-engine adapter *)

Lemma pop_app_last {A : Type} (l : list A) (x : A) : pop (l ++ [x]) = Some x.
Proof.
  induction l as [|y l IH]; simpl; [reflexivity|].
  rewrite IH. destruct (l ++ [x]) eqn:H; [|reflexivity].
  now destruct l.
Qed.

Lemma Role_eqb_eq (a b : Role) : Role_eqb a b = true <-> a = b.
Proof. destruct a, b; simpl; split; intros H; try reflexivity; discriminate. Qed.

Lemma filter_none {A : Type} (p : A -> bool) (l : list A) :
  (forall x, In x l -> p x = false) -> filter p l = [].
Proof.
  induction l as [|x l IH]; intros H; simpl; [reflexivity|].
  rewrite (H x (or_introl eq_refl)). apply IH. intros y Hy. apply H. now right.
Qed.

(** The last user message of [earlier ++ q :: later], when [q] has role user
    and no message of [later] has. *)
Lemma lastUserMessage_split (chatRequest : ChatRequest.t) earlier q later :
  ChatRequest.messages chatRequest = earlier ++ q :: later ->
  role q = user ->
  (forall m, In m later -> role m <> user) ->
  lastUserMessage chatRequest = Some q.
Proof.
  intros Hm Hq Hl. unfold lastUserMessage. rewrite Hm, filter_app. simpl.
  rewrite Hq. simpl. rewrite (filter_none _ later).
  - apply pop_app_last.
  - intros m Hin. destruct (Role_eqb (role m) user) eqn:E; [|reflexivity].
    apply Role_eqb_eq in E. now apply Hl in Hin.
Qed.

Lemma lastUserMessage_none (chatRequest : ChatRequest.t) :
  (forall m, In m (ChatRequest.messages chatRequest) -> role m <> user) ->
  lastUserMessage chatRequest = None.
Proof.
  intros H. unfold lastUserMessage. rewrite filter_none; [reflexivity|].
  intros m Hin. destruct (Role_eqb (role m) user) eqn:E; [|reflexivity].
  apply Role_eqb_eq in E. now apply H in Hin.
Qed.

(** The history filter keeps the non-system messages of a list in which no
    user message has the content of the question. *)
Lemma history_filter_other (q : Message) (ms : list Message) :
  (forall m, In m ms -> role m = user -> content m <> content q) ->
  filter (fun msg =>
            negb (Role_eqb (role msg) system)
            && negb (Role_eqb (role msg) user
                     && str_eqb (content msg) (content q))) ms
  = filter Spec.non_system ms.
Proof.
  induction ms as [|m ms IH]; intros H; simpl; [reflexivity|].
  rewrite IH by (intros m' Hin; apply H; now right).
  assert (Hm := H m (or_introl eq_refl)).
  change (Spec.non_system m)
    with (match role m with system => false | _ => true end).
  destruct (role m) eqn:Hr; simpl; try reflexivity.
  destruct (str_eqb (content m) (content q)) eqn:He; [|reflexivity].
  apply str_eqb_eq in He. now destruct (Hm eq_refl).
Qed.

Lemma flowise_history_split (chatRequest : ChatRequest.t) earlier q later :
  ChatRequest.messages chatRequest = earlier ++ q :: later ->
  role q = user ->
  (forall m, In m (earlier ++ later) -> role m = user -> content m <> content q) ->
  flowise_history chatRequest q = Spec.flowise_history (earlier ++ later).
Proof.
  intros Hm Hq Ho. unfold flowise_history, Spec.flowise_history.
  rewrite Hm, !filter_app. simpl. rewrite Hq. simpl.
  rewrite str_eqb_refl. simpl.
  rewrite !history_filter_other.
  - rewrite <- filter_app. apply map_ext. intros m. unfold Spec.tag.
    destruct (role m); reflexivity.
  - intros m Hin. apply Ho, in_or_app. now right.
  - intros m Hin. apply Ho, in_or_app. now left.
Qed.

(** C4 (amended): for the flow-engine adapter, with its configuration in
    place, the call fails with NoUserMessage when no message has role user;
    otherwise it makes one prediction call, and the question sent is the
    content of the most recent message of role user, whatever the other
    messages are.  Provided no earlier user message has the same content,
    the history sent consists of all the other non-system messages in order
    (those before the question and any after it), each tagged [apiMessage]
    when its role is assistant and [userMessage] otherwise, or is left out
    when there is none; when the question is the last message, these are
    all the earlier non-system messages. *)
Theorem C4_flowise_question_and_history :
  forall w apiUrl apiKey chatRequest,
    flowise_configured w apiUrl ->
    ((forall m, In m (ChatRequest.messages chatRequest) -> role m <> user) ->
     sendFlowiseRequest w apiUrl apiKey chatRequest = ([], Throw NoUserMessage))
    /\ (forall earlier q later,
           ChatRequest.messages chatRequest = earlier ++ q :: later ->
           role q = user ->
           (forall m, In m later -> role m <> user) ->
           exists client data,
             fst (sendFlowiseRequest w apiUrl apiKey chatRequest)
             = [CreatePrediction client data]
             /\ PredictionData.question data = content q
             /\ ((forall m, In m earlier -> role m = user -> content m <> content q) ->
                 PredictionData.history data
                 = history_or_undefined (Spec.flowise_history (earlier ++ later))
                 /\ (later = [] ->
                     PredictionData.history data
                     = history_or_undefined (Spec.flowise_history earlier)))).
Proof.
  intros w apiUrl apiKey chatRequest [Hu Hc]. unfold sendFlowiseRequest.
  rewrite Hu, Hc. simpl. split.
  - intros Hn. now rewrite (lastUserMessage_none chatRequest Hn).
  - intros earlier q later Hm Hq Hl.
    rewrite (lastUserMessage_split chatRequest earlier q later Hm Hq Hl).
    eexists. eexists. split; [reflexivity|]. simpl.
    split; [reflexivity|]. intros He.
    rewrite (flowise_history_split chatRequest earlier q later Hm Hq).
    + split; [reflexivity|]. intros ->. now rewrite app_nil_r.
    + intros m Hin Hr. apply in_app_or in Hin as [Hin|Hin].
      * now apply He.
      * now apply Hl in Hin.
Qed.

Lemma C4_witness :
  exists client data,
    fst (sendFlowiseRequest flow_engine (str "http://localhost:3000") []
           (a_request [says system "Be brief."; says user "Hi";
                       says assistant "Hello"; says user "Bye"] false))
    = [CreatePrediction client data]
    /\ PredictionData.question data = str "Bye"
    /\ PredictionData.history data
       = history_or_undefined
           (Spec.flowise_history
              [says system "Be brief."; says user "Hi"; says assistant "Hello"]).
Proof.
  destruct (proj2 (C4_flowise_question_and_history flow_engine
                     (str "http://localhost:3000") []
                     (a_request [says system "Be brief."; says user "Hi";
                                 says assistant "Hello"; says user "Bye"] false)
                     (conj eq_refl eq_refl))
              [says system "Be brief."; says user "Hi"; says assistant "Hello"]
              (says user "Bye") [] eq_refl eq_refl (fun m (H : In m []) => match H with end))
    as (client & data & Hf & Hq & Hh).
  exists client, data. split; [exact Hf|]. split; [exact Hq|].
  apply Hh; [|reflexivity].
  intros m [<-|[<-|[<-|[]]]]; simpl; intros Hr; discriminate.
Defined.

(** The claim as stated fails: a message after the most recent user message
    is no earlier message, yet it is sent in the history. *)
Lemma C4_counterexample :
  exists client data,
    fst (sendFlowiseRequest flow_engine (str "http://localhost:3000") []
           (a_request [says user "Hi"; says assistant "Hello"] false))
    = [CreatePrediction client data]
    /\ Spec.split_at_last_user [says user "Hi"; says assistant "Hello"]
       = Some ([], says user "Hi")
    /\ PredictionData.history data = Some [Spec.tag (says assistant "Hello")]
    /\ PredictionData.history data
       <> history_or_undefined (Spec.flowise_history []).
Proof.
  eexists. eexists. split; [vm_compute; reflexivity|].
  split; [reflexivity|]. split; [reflexivity|]. vm_compute. discriminate.
Qed.

(** An earlier user message with the text of the question is left out of
    the history as well: the filter compares contents. *)
Remark repeated_question_left_out :
  exists client data,
    fst (sendFlowiseRequest flow_engine (str "http://localhost:3000") []
           (a_request [says user "Hi"; says assistant "Hello"; says user "Hi"] false))
    = [CreatePrediction client data]
    /\ PredictionData.question data = str "Hi"
    /\ PredictionData.history data = Some [Spec.tag (says assistant "Hello")].
Proof.
  eexists. eexists. split; [vm_compute; reflexivity|]. split; reflexivity.
Qed.

(** ** The text of a flow-engine response *)

Lemma get_field (v : value) (k : jsstring) :
  nullish v = false -> array_index k = None -> get v k = Some (Spec.field v k).
Proof.
  intros Hn Hk. destruct v; simpl in *; try discriminate; try reflexivity;
    now rewrite Hk.
Qed.

Lemma flowise_content_text (w : World) (response : value) :
  nullish response = false ->
  flowise_content w response
  = Some (Spec.flowise_text (JSON_stringify w) response).
Proof.
  intros Hn. unfold flowise_content, Spec.flowise_text.
  rewrite !(get_field response _ Hn) by reflexivity.
  destruct response; try discriminate; try reflexivity;
    repeat match goal with
           | |- context [if truthy ?x then _ else _] => destruct (truthy x)
           end; reflexivity.
Qed.

(** C7: for a non-streaming flow-engine call that gets a response, the
    returned ChatResponse has a single choice whose message content is taken
    from the response by priority: the response itself when it is a plain
    string, else its [.text], else its [.result], else the stringified
    [.json], else the empty string (a field counting when it is truthy).
    In particular a response whose top-level [.text] is [ok] gives a
    ChatResponse whose single choice has the message content [ok]. *)
Theorem C7_flowise_response_content :
  (forall w apiUrl apiKey chatRequest q response,
      flowise_configured w apiUrl ->
      ChatRequest.stream chatRequest = false ->
      lastUserMessage chatRequest = Some q ->
      (forall client data, createPrediction w client data = Prediction response) ->
      nullish response = false ->
      snd (sendFlowiseRequest w apiUrl apiKey chatRequest)
      = Return (Response
          {| id := JString (generateId w);
             choices :=
               [ {| index := 0;
                    message :=
                      {| ChoiceMessage.role := assistant;
                         ChoiceMessage.content :=
                           Spec.flowise_text (JSON_stringify w) response |};
                    finish_reason := str "stop" |} ] |}))
  /\ snd (sendFlowiseRequest flow_engine (str "http://localhost:3000") []
            (a_request [says user "Hi"] false))
     = Return (Response
         {| id := JString (str "k3x9q0a1bz");
            choices :=
              [ {| index := 0;
                   message :=
                     {| ChoiceMessage.role := assistant;
                        ChoiceMessage.content := JString (str "ok") |};
                   finish_reason := str "stop" |} ] |}).
Proof.
  split; [|vm_compute; reflexivity].
  intros w apiUrl apiKey chatRequest q response [Hu Hc] Hs Hq Hp Hn.
  unfold sendFlowiseRequest. rewrite Hu, Hc, Hq. simpl. rewrite Hs, Hp.
  now rewrite (flowise_content_text w response Hn).
Qed.

Lemma C7_witness :
  snd (sendFlowiseRequest flow_engine (str "http://localhost:3000") []
         (a_request [says user "Hi"] false))
  = Return (Response
      {| id := JString (generateId flow_engine);
         choices :=
           [ {| index := 0;
                message :=
                  {| ChoiceMessage.role := assistant;
                     ChoiceMessage.content :=
                       Spec.flowise_text (JSON_stringify flow_engine)
                         (JObject [(str "text", JString (str "ok"))]) |};
                finish_reason := str "stop" |} ] |})
  /\ Spec.flowise_text (JSON_stringify flow_engine)
       (JObject [(str "text", JString (str "ok"))]) = JString (str "ok").
Proof.
  split; [|reflexivity].
  refine (proj1 C7_flowise_response_content flow_engine (str "http://localhost:3000") []
            (a_request [says user "Hi"] false) (says user "Hi")
            (JObject [(str "text", JString (str "ok"))]) _ _ _ _ _).
  - split; reflexivity.
  - reflexivity.
  - reflexivity.
  - reflexivity.
  - reflexivity.
Defined.

(** ** The credential gate *)

Lemma credential_absent_key (w : World) (p : Provider) :
  Spec.credential_absent w p <-> getApiKeyForProvider w p = [].
Proof.
  unfold Spec.credential_absent, getApiKeyForProvider, env_or.
  destruct p; simpl;
    match goal with
    | |- context [env w ?n] => destruct (env w n) as [[|u r]|]
    end; split; intros H; try reflexivity; try discriminate;
    try (destruct H; discriminate); auto.
Qed.

Lemma sendFlowiseRequest_no_credential_error (w : World) apiUrl apiKey chatRequest p :
  snd (sendFlowiseRequest w apiUrl apiKey chatRequest) <> Throw (MissingCredential p).
Proof.
  unfold sendFlowiseRequest.
  destruct (nonempty apiUrl); simpl; [|discriminate].
  destruct (nonempty (env_or w "VITE_FLOWISE_CHATFLOW_ID" [])); simpl; [|discriminate].
  destruct (lastUserMessage chatRequest); simpl; [|discriminate].
  destruct (ChatRequest.stream chatRequest); [discriminate|].
  destruct (createPrediction w _ _).
  - destruct (flowise_content w response); discriminate.
  - destruct (_ || _); discriminate.
Qed.

(** C9: for every provider other than flowise, [sendChatRequest] with an
    absent or empty credential fails with MissingCredential and issues no
    network request; for flowise an absent credential is tolerated: the call
    goes on to the flow-engine adapter with an empty key and never fails
    with MissingCredential. *)
Theorem C9_missing_credential :
  forall w chatRequest,
    (forall provider,
        provider <> flowise ->
        Spec.credential_absent w provider ->
        sendChatRequest w provider chatRequest
        = ([], Throw (MissingCredential provider)))
    /\ (Spec.credential_absent w flowise ->
        sendChatRequest w flowise chatRequest
        = sendFlowiseRequest w (getApiUrlForProvider w flowise) [] chatRequest
        /\ forall provider,
             snd (sendChatRequest w flowise chatRequest)
             <> Throw (MissingCredential provider)).
Proof.
  intros w chatRequest. split.
  - intros provider Hp Ha. apply credential_absent_key in Ha.
    unfold sendChatRequest. rewrite Ha. simpl.
    destruct provider; try reflexivity. now destruct Hp.
  - intros Ha. apply credential_absent_key in Ha.
    unfold sendChatRequest. rewrite Ha. simpl. split; [reflexivity|].
    intros provider. apply sendFlowiseRequest_no_credential_error.
Qed.

Lemma C9_witness :
  sendChatRequest offline claude (a_request [says user "Hi"] false)
  = ([], Throw (MissingCredential claude)).
Proof.
  refine (proj1 (C9_missing_credential offline (a_request [says user "Hi"] false))
            claude _ _).
  - discriminate.
  - left. reflexivity.
Defined.

(** ** The dispatcher: its requests *)

(** No provider has an empty URL: where the configuration has none, the
    default of the provider stands in. *)
Lemma getApiUrlForProvider_nonempty (w : World) (p : Provider) :
  nonempty (getApiUrlForProvider w p) = true.
Proof.
  unfold getApiUrlForProvider, env_or.
  destruct p;
    match goal with
    | |- context [env w ?n] => destruct (env w n) as [[|u r]|]
    end; reflexivity.
Qed.

(** The call of the dispatcher, by class of provider, once the credential
    gate is passed. *)
Lemma sendChatRequest_dispatch (w : World) (p : Provider) (req : ChatRequest.t) :
  (p = flowise \/ getApiKeyForProvider w p <> []) ->
  sendChatRequest w p req
  = match p with
    | flowise =>
        sendFlowiseRequest w (getApiUrlForProvider w p) (getApiKeyForProvider w p) req
    | claude =>
        sendClaudeRequest w (getApiUrlForProvider w p) (getApiKeyForProvider w p) req
    | _ =>
        sendOpenAICompatibleRequest w (getApiUrlForProvider w p)
          (getApiKeyForProvider w p) req
    end.
Proof.
  intros H. unfold sendChatRequest.
  destruct H as [->|H].
  - simpl. now rewrite andb_false_r.
  - destruct (getApiKeyForProvider w p) as [|u r] eqn:Hk; [contradiction|].
    simpl. destruct p; reflexivity.
Qed.

(** X1: for a provider other than flowise and claude whose key is set, the
    dispatcher makes one request: to the URL of the provider (never empty),
    with the key as bearer token, and with the chat request itself as body,
    unchanged. *)
Theorem openai_compatible_request_unchanged :
  forall w p req,
    p <> flowise -> p <> claude ->
    getApiKeyForProvider w p <> [] ->
    fst (sendChatRequest w p req)
    = [Fetch {| url := getApiUrlForProvider w p;
                headers := [(str "Content-Type", str "application/json");
                            (str "Authorization",
                             str "Bearer " ++ getApiKeyForProvider w p)];
                body := BodyChat req |}]
    /\ nonempty (getApiUrlForProvider w p) = true.
Proof.
  intros w p req Hf Hc Hk.
  rewrite sendChatRequest_dispatch by (now right).
  split; [|apply getApiUrlForProvider_nonempty].
  destruct p; try reflexivity; contradiction.
Qed.

Lemma openai_compatible_request_unchanged_witness :
  fst (sendChatRequest throttled groq (a_request [says user "Hi"] true))
  = [Fetch {| url := str "https://api.groq.com/openai/v1/chat/completions";
              headers := [(str "Content-Type", str "application/json");
                          (str "Authorization", str "Bearer gsk")];
              body := BodyChat (a_request [says user "Hi"] true) |}]
  /\ nonempty (getApiUrlForProvider throttled groq) = true.
Proof.
  refine (openai_compatible_request_unchanged throttled groq
            (a_request [says user "Hi"] true) _ _ _); discriminate.
Defined.

(** The calls an adapter makes. *)
Lemma sendFlowiseRequest_trace (w : World) apiUrl apiKey req :
  checked_then_called (sendFlowiseRequest w apiUrl apiKey req).
Proof.
  unfold sendFlowiseRequest, checked_then_called.
  destruct (nonempty apiUrl); simpl; [|reflexivity].
  destruct (nonempty (env_or w "VITE_FLOWISE_CHATFLOW_ID" [])); simpl; [|reflexivity].
  destruct (lastUserMessage req); simpl; [|reflexivity].
  destruct (ChatRequest.stream req); [exact I|].
  destruct (createPrediction w _ _).
  - destruct (flowise_content w response); [exact I | reflexivity].
  - destruct (_ || _); reflexivity.
Qed.

Lemma sendClaudeRequest_trace (w : World) apiUrl apiKey req :
  checked_then_called (sendClaudeRequest w apiUrl apiKey req).
Proof.
  unfold sendClaudeRequest, checked_then_called.
  destruct (_ =? _)%nat; [reflexivity|]. cbv zeta.
  destruct (fetch w _); [|reflexivity].
  destruct (negb (Response.ok response)); [reflexivity|].
  destruct (ChatRequest.stream req); [exact I|].
  destruct (Response.json response) as [data|]; [|reflexivity].
  destruct (get data (str "id")); [exact I | reflexivity].
Qed.

Lemma sendOpenAICompatibleRequest_trace (w : World) apiUrl apiKey req :
  checked_then_called (sendOpenAICompatibleRequest w apiUrl apiKey req).
Proof.
  unfold sendOpenAICompatibleRequest, checked_then_called. cbv zeta.
  destruct (fetch w _); [|reflexivity].
  destruct (negb (Response.ok response)); [reflexivity|].
  destruct (ChatRequest.stream req); [exact I|].
  destruct (Response.json response) as [data|]; [exact I | reflexivity].
Qed.

Lemma sendChatRequest_trace (w : World) (p : Provider) (req : ChatRequest.t) :
  checked_then_called (sendChatRequest w p req).
Proof.
  destruct (Provider_eqb p flowise) eqn:Hp.
  - assert (p = flowise) as -> by (destruct p; try discriminate; reflexivity).
    rewrite sendChatRequest_dispatch by (now left).
    apply sendFlowiseRequest_trace.
  - destruct (getApiKeyForProvider w p) as [|u r] eqn:Hk.
    + unfold sendChatRequest. rewrite Hk, Hp. reflexivity.
    + rewrite sendChatRequest_dispatch by (right; rewrite Hk; discriminate).
      destruct p; try discriminate;
        first [apply sendOpenAICompatibleRequest_trace | apply sendClaudeRequest_trace].
Qed.

(** X2: a call of the dispatcher makes at most one request, and it makes
    none exactly when it fails one of the checks that come before the
    request (credential, configuration, no message left, no user
    message). *)
Theorem one_request_at_most :
  forall w p req,
    (List.length (fst (sendChatRequest w p req)) <= 1)%nat
    /\ (fst (sendChatRequest w p req) = []
        <-> exists e, snd (sendChatRequest w p req) = Throw e
                      /\ validation_error e = true).
Proof.
  intros w p req. pose proof (sendChatRequest_trace w p req) as H.
  unfold checked_then_called in H.
  destruct (sendChatRequest w p req) as [[|c [|c' t]] [r|e]]; simpl;
    try contradiction.
  - split; [lia|]. split; [intros _; now exists e | reflexivity].
  - split; [lia|]. split; [discriminate|]. intros (e & He & _). discriminate.
  - split; [lia|]. split; [discriminate|].
    intros (e' & He & Hv). injection He as <-. congruence.
Qed.

Lemma one_request_at_most_witness :
  fst (sendChatRequest offline claude (a_request [says user "Hi"] false)) = [].
Proof.
  refine (proj2 (proj2 (one_request_at_most offline claude
                          (a_request [says user "Hi"] false))) _).
  exists (MissingCredential claude). split; reflexivity.
Defined.

(** ** The dispatcher: failures and results *)

Lemma failure_detail_path (response : Response.t) :
  failure_detail response
  = (let m := Spec.at_path (body_or_null response) [str "error"; str "message"] in
     if truthy m then m else JString (Response.statusText response)).
Proof. reflexivity. Qed.

(** X3: for a provider other than flowise, a response that is not ok makes
    the call fail with a TransportFailure that carries the status and, as
    detail, the truthy [error.message] of the parsed body or else the status
    text (also when the body does not parse). *)
Theorem transport_failure :
  forall w p req call response,
    p <> flowise ->
    fst (sendChatRequest w p req) = [Fetch call] ->
    fetch w call = Resolved response ->
    Response.ok response = false ->
    snd (sendChatRequest w p req)
    = Throw (TransportFailure (Response.status response)
               (let m := Spec.at_path (body_or_null response)
                           [str "error"; str "message"] in
                if truthy m then m else JString (Response.statusText response))).
Proof.
  intros w p req call response Hp Hc Hf Hok.
  rewrite <- failure_detail_path.
  destruct (getApiKeyForProvider w p) as [|u r] eqn:Hk.
  { unfold sendChatRequest in Hc. rewrite Hk in Hc.
    destruct p; try discriminate. contradiction. }
  rewrite sendChatRequest_dispatch in Hc |- * by (right; rewrite Hk; discriminate).
  destruct p; try contradiction;
    try (unfold sendOpenAICompatibleRequest in *; cbv zeta in *; simpl in Hc;
         injection Hc as <-; simpl; rewrite Hf, Hok; reflexivity).
  unfold sendClaudeRequest in *.
  destruct (_ =? _)%nat; [discriminate|]. cbv zeta in *. simpl in Hc.
  injection Hc as <-. simpl. rewrite Hf, Hok. reflexivity.
Qed.

Lemma transport_failure_witness :
  snd (sendChatRequest throttled groq (a_request [says user "Hi"] true))
  = Throw (TransportFailure 429 (JString (str "slow down"))).
Proof.
  refine (transport_failure throttled groq (a_request [says user "Hi"] true)
            {| url := str "https://api.groq.com/openai/v1/chat/completions";
               headers := [(str "Content-Type", str "application/json");
                           (str "Authorization", str "Bearer gsk")];
               body := BodyChat (a_request [says user "Hi"] true) |}
            response_429 _ _ _ _).
  - discriminate.
  - reflexivity.
  - reflexivity.
  - reflexivity.
Defined.

Lemma Provider_eqb_eq (a b : Provider) : Provider_eqb a b = true <-> a = b.
Proof. destruct a, b; simpl; split; intros H; try reflexivity; discriminate. Qed.

(** X4: what a call returns goes with the request and the provider.  A
    stream is returned only when streaming was asked for: for flowise the
    stream built from the prediction of the one call made, for the other
    providers the body of the ok response to the one request made.
    Otherwise the OpenAI-compatible providers return the parsed body of the
    ok response to their request, as it came, and claude and flowise a
    response of exactly one choice, of role assistant and finish reason
    stop. *)
Theorem result_kind :
  forall w p req x,
    snd (sendChatRequest w p req) = Return x ->
    match x with
    | Stream s =>
        ChatRequest.stream req = true
        /\ ((p = flowise
             /\ exists client data,
                  fst (sendChatRequest w p req) = [CreatePrediction client data]
                  /\ s = flowise_stream w (createPredictionStream w client data))
            \/ (p <> flowise
                /\ exists call response,
                     fst (sendChatRequest w p req) = [Fetch call]
                     /\ fetch w call = Resolved response
                     /\ Response.ok response = true
                     /\ s = Response.body response))
    | RawResponse data =>
        ChatRequest.stream req = false /\ p <> claude /\ p <> flowise
        /\ exists call response,
             fst (sendChatRequest w p req) = [Fetch call]
             /\ fetch w call = Resolved response
             /\ Response.ok response = true
             /\ Response.json response = Some data
    | Response r =>
        ChatRequest.stream req = false /\ (p = claude \/ p = flowise)
        /\ exists i content, r = single_choice i content
    end.
Proof.
  intros w p req x H.
  assert (Hd : p = flowise \/ getApiKeyForProvider w p <> []).
  { destruct (Provider_eqb p flowise) eqn:Hp; [left; now apply Provider_eqb_eq|].
    right. intros Hk. unfold sendChatRequest in H. rewrite Hk, Hp in H.
    discriminate. }
  rewrite (sendChatRequest_dispatch w p req Hd) in H |- *.
  assert (Hhttp : forall u k,
    snd (sendOpenAICompatibleRequest w u k req) = Return x ->
    match x with
    | Stream s =>
        ChatRequest.stream req = true
        /\ exists call response,
             fst (sendOpenAICompatibleRequest w u k req) = [Fetch call]
             /\ fetch w call = Resolved response
             /\ Response.ok response = true
             /\ s = Response.body response
    | RawResponse data =>
        ChatRequest.stream req = false
        /\ exists call response,
             fst (sendOpenAICompatibleRequest w u k req) = [Fetch call]
             /\ fetch w call = Resolved response
             /\ Response.ok response = true
             /\ Response.json response = Some data
    | Response r => False
    end).
  { intros u k. unfold sendOpenAICompatibleRequest. cbv zeta. cbn [fst snd].
    destruct (fetch w _) as [response|] eqn:Hf; [|discriminate].
    destruct (Response.ok response) eqn:Hok; cbn [negb]; [|discriminate].
    destruct (ChatRequest.stream req).
    - intros E. injection E as <-. split; [reflexivity|].
      eexists. exists response. repeat split; [exact Hf | exact Hok].
    - destruct (Response.json response) as [data|] eqn:Hj; [|discriminate].
      intros E. injection E as <-. split; [reflexivity|].
      eexists. exists response. repeat split; [exact Hf | exact Hok | exact Hj]. }
  destruct p; cbv beta iota in H |- *;
    try (apply Hhttp in H; destruct x as [r|data|s];
         [contradiction
         | destruct H as [Hs He]; split; [exact Hs|];
           split; [discriminate|]; split; [discriminate | exact He]
         | destruct H as [Hs He]; split; [exact Hs|];
           right; split; [discriminate | exact He]]).
  - unfold sendClaudeRequest in H |- *.
    destruct (_ =? _)%nat; [discriminate|]. cbv zeta in H |- *. cbn [fst snd] in H |- *.
    destruct (fetch w _) as [response|] eqn:Hf; [|discriminate].
    destruct (Response.ok response) eqn:Hok; cbn [negb] in H; [|discriminate].
    destruct (ChatRequest.stream req).
    + injection H as <-. split; [reflexivity|]. right. split; [discriminate|].
      eexists. exists response. repeat split; [exact Hf | exact Hok].
    + destruct (Response.json response) as [data|]; [|discriminate].
      destruct (get data _) as [i|]; [|discriminate].
      injection H as <-. split; [reflexivity|]. split; [now left|].
      eexists. eexists. reflexivity.
  - unfold sendFlowiseRequest in H |- *.
    destruct (nonempty (getApiUrlForProvider w flowise)); [|discriminate].
    cbn [negb] in H |- *.
    destruct (nonempty (env_or w "VITE_FLOWISE_CHATFLOW_ID" [])); [|discriminate].
    cbn [negb] in H |- *.
    destruct (lastUserMessage req); [|discriminate].
    destruct (ChatRequest.stream req); cbn [fst snd] in H |- *.
    + injection H as <-. split; [reflexivity|]. left. split; [reflexivity|].
      eexists. eexists. split; reflexivity.
    + destruct (createPrediction w _ _).
      * destruct (flowise_content w response) as [c|]; [|discriminate].
        injection H as <-. split; [reflexivity|]. split; [now right|].
        eexists. eexists. reflexivity.
      * destruct (_ || _); discriminate.
Qed.

Lemma result_kind_witness :
  ChatRequest.stream (a_request [says user "Hi"] false) = false
  /\ groq <> claude /\ groq <> flowise
  /\ exists call response,
       fst (sendChatRequest (set_env claude_world "VITE_GROQ_API_KEY" (Some (str "gsk")))
              groq (a_request [says user "Hi"] false))
       = [Fetch call]
       /\ fetch (set_env claude_world "VITE_GROQ_API_KEY" (Some (str "gsk"))) call
          = Resolved response
       /\ Response.ok response = true
       /\ Response.json response = Some (body_or_null claude_reply).
Proof.
  refine (result_kind (set_env claude_world "VITE_GROQ_API_KEY" (Some (str "gsk")))
            groq (a_request [says user "Hi"] false)
            (RawResponse (body_or_null claude_reply)) _).
  vm_compute. reflexivity.
Defined.

(** X5: through the dispatcher, a flow engine without chatflow identifier
    (absent or empty) fails with MissingConfiguration before any request,
    and the error of the missing URL is never raised: the default URL stands
    in. *)
Theorem flowise_needs_chatflow_id :
  forall w req,
    (env w "VITE_FLOWISE_CHATFLOW_ID" = None
     \/ env w "VITE_FLOWISE_CHATFLOW_ID" = Some [] ->
     sendChatRequest w flowise req
     = ([], Throw (MissingConfiguration "Flowise Chatflow ID")))
    /\ snd (sendChatRequest w flowise req)
       <> Throw (MissingConfiguration "Flowise API URL").
Proof.
  intros w req. rewrite sendChatRequest_dispatch by (now left).
  unfold sendFlowiseRequest. rewrite getApiUrlForProvider_nonempty. simpl.
  split.
  - intros H. unfold env_or. destruct H as [-> | ->]; reflexivity.
  - destruct (nonempty (env_or w "VITE_FLOWISE_CHATFLOW_ID" [])); simpl; [|discriminate].
    destruct (lastUserMessage req); simpl; [|discriminate].
    destruct (ChatRequest.stream req); [discriminate|].
    destruct (createPrediction w _ _).
    + destruct (flowise_content w response); discriminate.
    + destruct (_ || _); discriminate.
Qed.

Lemma flowise_needs_chatflow_id_witness :
  sendChatRequest offline flowise (a_request [says user "Hi"] false)
  = ([], Throw (MissingConfiguration "Flowise Chatflow ID")).
Proof.
  refine (proj1 (flowise_needs_chatflow_id offline (a_request [says user "Hi"] false)) _).
  left. reflexivity.
Defined.

(** The chunks the streaming branch enqueues are those of the tokens. *)
Lemma flowise_enqueued (w : World) (prediction : PredictionEvents) :
  flat_map (fun chunk : jsstring * jsstring =>
              let (event, data) := chunk in
              if str_eqb event (str "token") && nonempty data
              then [TextEncoder.encode
                      (str "data: " ++ formattedChunk w data ++ [LF; LF])]
              else [])
           (events prediction)
  = map (fun data => TextEncoder.encode (sse_line w data)) (tokens prediction).
Proof.
  unfold tokens.
  induction (events prediction) as [|[event data] evs IH]; [reflexivity|].
  cbn [flat_map]. rewrite map_app, <- IH.
  destruct (_ && _); reflexivity.
Qed.

(** A stream put in error holds the chunks read by then. *)
Lemma flowise_stream_failed (w : World) (prediction : PredictionEvents)
    (message : jsstring) :
  failure prediction = Some message ->
  chunks (flowise_stream w prediction)
  = firstn (reads_before_error w)
      (map (fun token => TextEncoder.encode (sse_line w token)) (tokens prediction))
  /\ ending (flowise_stream w prediction) = Errored message.
Proof.
  intros Hf. unfold flowise_stream. rewrite Hf. cbn [chunks ending].
  rewrite flowise_enqueued. split; reflexivity.
Qed.

(** X6: with its configuration and a user message, the flowise adapter
    makes one prediction call.  While streaming, the call itself returns a
    stream.  A failure of the prediction puts that stream in error: its
    reader gets the chunks of the tokens it has read by then, none when it
    has read none, and then the error; the normaliser run on it yields the
    fragments of those chunks, ends with the error and releases its lock.
    While not streaming, a rejected prediction fails the call: with
    MisconfiguredEndpoint when the message holds markup, with the error as
    it came otherwise. *)
Theorem flowise_failure_paths :
  forall w apiUrl apiKey req q,
    flowise_configured w apiUrl ->
    lastUserMessage req = Some q ->
    exists client data,
      fst (sendFlowiseRequest w apiUrl apiKey req) = [CreatePrediction client data]
      /\ (ChatRequest.stream req = true ->
          exists s,
            snd (sendFlowiseRequest w apiUrl apiKey req) = Return (Stream s)
            /\ (forall message,
                   failure (createPredictionStream w client data) = Some message ->
                   chunks s
                   = firstn (reads_before_error w)
                       (map (fun token => TextEncoder.encode (sse_line w token))
                            (tokens (createPredictionStream w client data)))
                   /\ ending s = Errored message
                   /\ (reads_before_error w = 0%nat -> fragments s = [])
                   /\ forall n, (List.length (fragments s) < n)%nat ->
                        exists g', drain n (streamChatResponse s)
                                   = (fragments s, Some (Raised message, g'))
                                   /\ locked g' = false)
            /\ (failure (createPredictionStream w client data) = None ->
                ending s = Closed))
      /\ (ChatRequest.stream req = false ->
          forall message,
            createPrediction w client data = PredictionRejected message ->
            snd (sendFlowiseRequest w apiUrl apiKey req)
            = Throw (if includes message (str "<!DOCTYPE html>")
                        || includes message (str "<html")
                     then MisconfiguredEndpoint
                     else RaisedOutside message)).
Proof.
  intros w apiUrl apiKey req q [Hu Hc] Hq.
  unfold sendFlowiseRequest. rewrite Hu, Hc, Hq. cbn [negb].
  eexists. eexists. split; [reflexivity|]. split.
  - intros Hs. rewrite Hs. eexists. split; [reflexivity|]. split.
    + intros message Hf.
      destruct (flowise_stream_failed w _ message Hf) as [Hch He]. split; [exact Hch|]. split; [exact He|]. split.
      * intros H0. unfold fragments. rewrite Hch, H0. reflexivity.
      * intros n Hn.
        destruct (drain_remaining n (streamChatResponse _) eq_refl Hn)
          as (g' & Hd & _ & Hl).
        exists g'. split; [|exact Hl].
        cbn [reader streamChatResponse] in Hd. rewrite He in Hd. exact Hd.
    + intros Hf. unfold flowise_stream. now rewrite Hf.
  - intros Hs message Hm. rewrite Hs in Hm |- *. cbn [snd]. rewrite Hm.
    destruct (_ || _); reflexivity.
Qed.

Lemma flowise_failure_paths_witness :
  (exists s,
      snd (sendFlowiseRequest failing_engine (str "http://localhost:3000") []
             (a_request [says user "Hi"] true))
      = Return (Stream s)
      /\ chunks s = [TextEncoder.encode (sse_line failing_engine (str "Hi"))]
      /\ exists g',
           drain 2 (streamChatResponse s)
           = ([JString (str "Hi")], Some (Raised (str "socket hang up"), g'))
           /\ locked g' = false)
  /\ snd (sendFlowiseRequest failing_engine (str "http://localhost:3000") []
            (a_request [says user "Hi"] false))
     = Throw MisconfiguredEndpoint.
Proof.
  split.
  - destruct (flowise_failure_paths failing_engine (str "http://localhost:3000") []
                (a_request [says user "Hi"] true) (says user "Hi")
                (conj eq_refl eq_refl) eq_refl)
      as (client & data & _ & Hstream & _).
    destruct (Hstream eq_refl) as (s & Hs & Hfail & _).
    destruct (Hfail (str "socket hang up") eq_refl) as (Hch & _ & _ & Hdrain).
    exists s. split; [exact Hs|]. split; [exact Hch|].
    assert (Hfr : fragments s = [JString (str "Hi")]).
    { unfold fragments. rewrite Hch. vm_compute. reflexivity. }
    rewrite <- Hfr. apply Hdrain. rewrite Hfr. simpl. lia.
  - destruct (flowise_failure_paths failing_engine (str "http://localhost:3000") []
                (a_request [says user "Hi"] false) (says user "Hi")
                (conj eq_refl eq_refl) eq_refl)
      as (client & data & _ & _ & Hplain).
    exact (Hplain eq_refl _ eq_refl).
Defined.

Lemma get_nullish_none (v : value) (k : jsstring) :
  nullish v = true -> get v k = None.
Proof. destruct v; simpl; intros H; try discriminate; reflexivity. Qed.

(** X7: the non-streaming answer of the Anthropic adapter to an ok
    response: the [id] of the body and one choice whose content is the text
    of the first content block when truthy, the empty string otherwise; a
    body that does not parse raises SyntaxError, a null body TypeError. *)
Theorem claude_response_content :
  forall w apiUrl apiKey req response,
    anthropicMessages req <> [] ->
    ChatRequest.stream req = false ->
    (forall call, fetch w call = Resolved response) ->
    Response.ok response = true ->
    snd (sendClaudeRequest w apiUrl apiKey req)
    = match Response.json response with
      | None => Throw SyntaxError
      | Some data =>
          if nullish data then Throw TypeError
          else
            let text := Spec.at_path data [str "content"; str "0"; str "text"] in
            Return (Response
                      (single_choice (Spec.field data (str "id"))
                         (if truthy text then text else JString [])))
      end.
Proof.
  intros w apiUrl apiKey req response Hm Hs Hf Hok.
  unfold sendClaudeRequest.
  destruct (anthropicMessages req) as [|m ms] eqn:Ha; [contradiction|].
  cbn [List.length Nat.eqb]. cbv zeta. cbn [snd].
  rewrite Hf, Hok, Hs. cbn [negb].
  destruct (Response.json response) as [data|]; [|reflexivity].
  destruct (nullish data) eqn:Hn.
  - now rewrite (get_nullish_none data (str "id") Hn).
  - rewrite (get_field data (str "id") Hn) by reflexivity. reflexivity.
Qed.

Lemma claude_response_content_witness :
  snd (sendClaudeRequest claude_world [] (str "sk") (a_request [says user "Hi"] false))
  = Return (Response (single_choice (JString (str "msg_1")) (JString (str "Hello")))).
Proof.
  refine (claude_response_content claude_world [] (str "sk")
            (a_request [says user "Hi"] false) claude_reply _ _ _ _).
  - discriminate.
  - reflexivity.
  - reflexivity.
  - reflexivity.
Defined.

(** ** The base URL of the flow engine *)

Lemma strip_suffix_app (suffix base : jsstring) :
  strip_suffix suffix (base ++ suffix) = Some base.
Proof.
  unfold strip_suffix. rewrite length_app.
  replace (List.length base + List.length suffix - List.length suffix)%nat
    with (List.length base) by lia.
  assert (Hle : (List.length suffix <=? List.length base + List.length suffix)%nat = true)
    by (apply Nat.leb_le; lia).
  rewrite Hle, skipn_app, skipn_all, Nat.sub_diag, firstn_app, firstn_all,
    Nat.sub_diag. simpl.
  now rewrite str_eqb_refl, app_nil_r.
Qed.

Lemma strip_suffix_some (suffix s base : jsstring) :
  strip_suffix suffix s = Some base -> s = base ++ suffix.
Proof.
  unfold strip_suffix.
  destruct (_ <=? _)%nat; [|discriminate]. simpl.
  destruct (str_eqb _ suffix) eqn:He; [|discriminate].
  apply str_eqb_eq in He. intros H. injection H as <-.
  rewrite <- He at 2. symmetry. apply firstn_skipn.
Qed.

(** X8: the base URL handed to the client of the flow engine is the URL
    less one prediction path at its end, with or without the final slash,
    and the URL itself when it does not end so; the default URL gives the
    host. *)
Theorem flowise_baseUrl_strips_path :
  (forall base,
      flowise_baseUrl (base ++ str "/api/v1/prediction") = base
      /\ flowise_baseUrl (base ++ str "/api/v1/prediction/") = base)
  /\ (forall apiUrl,
         apiUrl = flowise_baseUrl apiUrl
         \/ apiUrl = flowise_baseUrl apiUrl ++ str "/api/v1/prediction"
         \/ apiUrl = flowise_baseUrl apiUrl ++ str "/api/v1/prediction/")
  /\ (forall w,
         env w "VITE_FLOWISE_API_URL" = None ->
         flowise_baseUrl (getApiUrlForProvider w flowise) = str "http://localhost:3000").
Proof.
  split; [|split].
  - intros base. split.
    + unfold flowise_baseUrl.
      destruct (strip_suffix (str "/api/v1/prediction/")
                  (base ++ str "/api/v1/prediction")) as [x|] eqn:H.
      * apply strip_suffix_some in H. apply (f_equal (@rev _)) in H.
        rewrite !rev_app_distr in H. simpl in H. discriminate.
      * now rewrite strip_suffix_app.
    + unfold flowise_baseUrl. now rewrite strip_suffix_app.
  - intros apiUrl. unfold flowise_baseUrl.
    destruct (strip_suffix (str "/api/v1/prediction/") apiUrl) as [x|] eqn:H1.
    { right. right. now apply strip_suffix_some. }
    destruct (strip_suffix (str "/api/v1/prediction") apiUrl) as [x|] eqn:H2.
    { right. left. now apply strip_suffix_some. }
    now left.
  - intros w H. unfold getApiUrlForProvider, env_or. rewrite H. reflexivity.
Qed.

Lemma flowise_baseUrl_strips_path_witness :
  flowise_baseUrl (getApiUrlForProvider offline flowise) = str "http://localhost:3000".
Proof.
  refine (proj2 (proj2 flowise_baseUrl_strips_path) offline _). reflexivity.
Defined.

(** ** What the Anthropic adapter transmits, and where *)

Lemma blank_nonempty (s : jsstring) : Spec.blank s = false -> nonempty s = true.
Proof. destruct s; [discriminate | reflexivity]. Qed.

(** X9: no message sent to Anthropic has role system or a blank content;
    the contents sent are the contents of the request that are not blank, in
    order; and a message of another role than system that is not blank is
    sent as it is. *)
Theorem anthropicMessages_invariants :
  forall req,
    Forall (fun m => role m <> system /\ Spec.blank (content m) = false)
           (anthropicMessages req)
    /\ map content (anthropicMessages req)
       = filter (fun c => negb (Spec.blank c))
                (map content (ChatRequest.messages req))
    /\ (forall m, In m (ChatRequest.messages req) ->
                  role m <> system -> Spec.blank (content m) = false ->
                  In m (anthropicMessages req)).
Proof.
  intros req. unfold anthropicMessages.
  induction (ChatRequest.messages req) as [|m ms (IH1 & IH2 & IH3)].
  - repeat split; [constructor | contradiction].
  - cbn [filter map]. rewrite trim_blank.
    destruct (Spec.blank (content m)) eqn:Hb.
    + rewrite andb_false_r. cbn [negb]. split; [exact IH1|]. split; [exact IH2|].
      intros m' [<-|Hin] Hr Hb'; [congruence | now apply IH3].
    + rewrite (blank_nonempty _ Hb). cbn [andb negb map].
      split; [|split].
      * constructor; [|exact IH1]. cbn [role content]. split; [|exact Hb].
        destruct (role m); discriminate.
      * cbn [content]. now rewrite IH2.
      * intros m' [<-|Hin] Hr Hb'; [|right; now apply IH3].
        left. destruct m as [r c]. cbn [role content] in *.
        destruct r; [contradiction | reflexivity | reflexivity].
Qed.

Lemma anthropicMessages_invariants_witness :
  In (says user "Hello")
     (anthropicMessages
        (a_request [says system "Be brief."; says user ""; says user "Hello"] true)).
Proof.
  refine (proj2 (proj2 (anthropicMessages_invariants
                          (a_request [says system "Be brief."; says user "";
                                      says user "Hello"] true)))
            (says user "Hello") _ _ _).
  - right. right. left. reflexivity.
  - discriminate.
  - reflexivity.
Defined.

(** X10: the URL configured for claude is never used: whatever
    VITE_CLAUDE_API_URL holds, a call for claude does the same. *)
Theorem claude_url_never_used :
  forall w url req,
    sendChatRequest (set_env w "VITE_CLAUDE_API_URL" url) claude req
    = sendChatRequest w claude req.
Proof.
  intros w url req. unfold sendChatRequest, getApiKeyForProvider, env_or.
  cbn [set_env env String.eqb Ascii.eqb Bool.eqb].
  destruct (env w "VITE_CLAUDE_API_KEY") as [[|u r]|]; reflexivity.
Qed.

(** ** Which lines yield *)

(** A [data: ] line that is no ping line yields the fragment of its
    payload. *)
Lemma data_line_yields (line : jsstring) (data fragment : value) :
  startsWith line (str "data: ") = true ->
  includes line (str "event: ping") = false ->
  JSON.parse (slice 6 line) = Some data ->
  Spec.fragment_of data = Some fragment ->
  process_line line = Yield fragment.
Proof.
  intros Hs Hp Hj Hf.
  assert (Hb : Spec.blank (slice 6 line) = false).
  { destruct (Spec.blank (slice 6 line)) eqn:Hb; [|reflexivity].
    rewrite (parse_blank _ Hb) in Hj. discriminate. }
  pose proof (line_with_data_space_prefix line Hs Hp Hb) as Hpl.
  pose proof (process_line_parsed line _ data Hpl Hj) as Hy.
  rewrite Hf in Hy. destruct (process_line line); try discriminate.
  now injection Hy as ->.
Qed.

(** X11: a line yields a fragment exactly when it starts with the prefix
    [data: ], does not hold the text [event: ping], and the text after the
    prefix parses to a value that has this fragment. *)
Theorem yield_characterised :
  forall line fragment,
    process_line line = Yield fragment
    <-> startsWith line (str "data: ") = true
        /\ includes line (str "event: ping") = false
        /\ exists data, JSON.parse (slice 6 line) = Some data
                        /\ Spec.fragment_of data = Some fragment.
Proof.
  intros line fragment. split.
  - intros H.
    destruct (payload line) as [text|] eqn:Hp;
      [|unfold process_line in H; rewrite Hp in H; discriminate].
    destruct (JSON.parse text) as [data|] eqn:Hj;
      [|unfold process_line in H; rewrite Hp, Hj in H; discriminate].
    pose proof (process_line_parsed line text data Hp Hj) as Hy.
    rewrite H in Hy. cbn [yielded] in Hy.
    unfold payload in Hp.
    destruct (includes line (str "event: ping")); [discriminate|].
    destruct (startsWith line (str "event:")); [discriminate|].
    destruct (startsWith line (str "data:")) eqn:Hd; [|discriminate].
    cbn [negb] in Hp.
    destruct (startsWith line (str "data: ")) eqn:Hs.
    + destruct (str_eqb (trim (slice 6 line)) []); [discriminate|].
      injection Hp as <-. repeat split. exists data. now split.
    + destruct (str_eqb (trim line) []); [discriminate|].
      injection Hp as <-. destruct line as [|u r]; [discriminate|].
      simpl in Hd. destruct (Z.eqb_spec u 100) as [->|]; [|discriminate].
      rewrite parse_letter_d in Hj. discriminate.
  - intros (Hs & Hp & data & Hj & Hf).
    exact (data_line_yields line data fragment Hs Hp Hj Hf).
Qed.

Lemma yield_characterised_witness :
  process_line line_Hi = Yield (JString (str "Hi")).
Proof.
  apply (proj2 (yield_characterised line_Hi (JString (str "Hi")))).
  split; [reflexivity|]. split; [reflexivity|].
  eexists. split; vm_compute; reflexivity.
Defined.

(** ** The console *)

Lemma run_lines_console (ls warned : list jsstring) :
  match run_lines ls warned with
  | (Some (_, rest), warned') =>
      warned' ++ warned_of_lines rest = warned ++ warned_of_lines ls
  | (None, warned') => warned' = warned ++ warned_of_lines ls
  end.
Proof.
  revert warned; induction ls as [|line rest IH]; intros warned; simpl.
  - now rewrite app_nil_r.
  - unfold warned_of_lines in *. simpl.
    destruct (process_line line).
    + reflexivity.
    + apply IH.
    + specialize (IH (warned ++ [line])).
      destruct (run_lines rest (warned ++ [line])) as [[[f r]|] w'];
        rewrite IH, <- app_assoc; reflexivity.
Qed.

Lemma run_reads_console (cs : list (list byte)) (e : StreamEnd) :
  forall d warned,
    console_due (snd (run_reads cs e d warned))
    = warned ++ flat_map warned_of_chunk (decoded d cs).
Proof.
  induction cs as [|c cs IH]; intros d warned; simpl.
  - unfold console_due. simpl. now rewrite app_nil_r.
  - destruct (decode d c) as [chunk d'] eqn:Hd. simpl.
    pose proof (run_lines_console (lines_of chunk) warned) as Hl.
    destruct (run_lines (lines_of chunk) warned) as [[[fragment rest]|] warned'].
    + unfold console_due. simpl. unfold warned_of_chunk at 2.
      rewrite !app_assoc, Hl. reflexivity.
    + rewrite IH, Hl. unfold warned_of_chunk at 2. now rewrite app_assoc.
Qed.

(** A call of [next] leaves the warnings due as they are. *)
Lemma next_console (g : Generator) :
  console_due (snd (next g)) = console_due g.
Proof.
  unfold next. destruct (completed g) eqn:Hc; [reflexivity|].
  pose proof (run_lines_console (lines g) (console g)) as Hl.
  destruct (run_lines (lines g) (console g)) as [[[fragment rest]|] warned'].
  - unfold console_due. simpl. rewrite Hc, !app_assoc, Hl. reflexivity.
  - rewrite run_reads_console, Hl. unfold console_due. rewrite Hc.
    now rewrite app_assoc.
Qed.

Lemma drain_console (n : nat) :
  forall g fs last g',
    drain n g = (fs, Some (last, g')) -> console_due g' = console_due g.
Proof.
  induction n as [|n IH]; intros g fs last g' H; [discriminate|].
  simpl in H. pose proof (next_console g) as Hn.
  destruct (next g) as [[fragment| |reason] g1]; simpl in Hn.
  - destruct (drain n g1) as [fs1 r1] eqn:Hd.
    injection H as _ ->. rewrite <- Hn. eapply IH. exact Hd.
  - injection H as _ _ <-. exact Hn.
  - injection H as _ _ <-. exact Hn.
Qed.

(** X12: when the generator has run to its end, the console holds the
    lines that ended in the handler of the line loop (a payload that does
    not parse, a property read of null), each once, in the order of the
    stream, and nothing else. *)
Theorem console_after_drain :
  forall stream n,
    (List.length (fragments stream) < n)%nat ->
    exists g',
      drain n (streamChatResponse stream)
      = (fragments stream, Some (end_of (ending stream), g'))
      /\ console g'
         = flat_map warned_of_chunk (decoded TextDecoder.create (chunks stream)).
Proof.
  intros stream n Hn.
  destruct (drain_remaining n (streamChatResponse stream) eq_refl Hn)
    as (g' & Hd & Hc & _).
  exists g'. split; [exact Hd|].
  pose proof (drain_console n _ _ _ _ Hd) as H.
  unfold console_due in H. rewrite Hc in H. exact H.
Qed.

Lemma console_after_drain_witness :
  exists g',
    drain 3 (streamChatResponse stream_Hi_bad_Yo)
    = ([JString (str "Hi"); JString (str "Yo")], Some (Done, g'))
    /\ console g' = [line_not_json].
Proof.
  apply (console_after_drain stream_Hi_bad_Yo 3). vm_compute. lia.
Defined.

(** ** Reads that end with a line *)

Lemma utf8_lead_ok (b : byte) : utf8_ok (snd (utf8_lead b)).
Proof.
  unfold utf8_lead, utf8_ok.
  destruct (_ && _); [now left|].
  destruct (_ && _); [right; simpl; lia|].
  destruct (_ && _); [right; simpl; destruct (b =? 0xE0); lia|].
  destruct (_ && _); [right; simpl; destruct (b =? 0xF0); lia|].
  now left.
Qed.

(** Every state the handler leaves is one it can be in. *)
Lemma utf8_step_ok (st : utf8_state) (b : byte) : utf8_ok (snd (utf8_step st b)).
Proof.
  unfold utf8_step.
  destruct (bytes_needed st =? 0); [apply utf8_lead_ok|].
  destruct (_ || _).
  - pose proof (utf8_lead_ok b) as H. now destruct (utf8_lead b).
  - cbv zeta. destruct (_ =? _); [now left | right; simpl; lia].
Qed.

Lemma utf8_run_ok (bs : list byte) :
  forall st, utf8_ok st -> utf8_ok (snd (utf8_run st bs)).
Proof.
  induction bs as [|b bs IH]; intros st H; simpl; [exact H|].
  pose proof (utf8_step_ok st b) as Hs.
  destruct (utf8_step st b) as [o1 st1]. specialize (IH st1 Hs).
  now destruct (utf8_run st1 bs).
Qed.

(** The line feed closes whatever was open: it is emitted last and leaves the
    handler in its initial state. *)
Lemma utf8_step_LF (st : utf8_state) :
  utf8_ok st ->
  exists o, utf8_step st LF = (o ++ [LF], utf8_init) /\ ~ In BOM (o ++ [LF]).
Proof.
  intros H. unfold utf8_step.
  destruct (Z.eqb_spec (bytes_needed st) 0) as [Hn|Hn].
  - exists []. split; [reflexivity|]. simpl. intros [E|[]]. discriminate.
  - destruct H as [H|H]; [contradiction|].
    assert (Hlt : (LF <? lower_boundary st) = true)
      by (apply Z.ltb_lt; unfold LF; lia).
    rewrite Hlt. cbn [orb]. exists [REPLACEMENT]. split; [reflexivity|].
    simpl. intros [E|[E|[]]]; discriminate.
Qed.

Lemma decode_ok (d : TextDecoder.t) (value : list byte) :
  utf8_ok (utf8 d) -> utf8_ok (utf8 (snd (decode d value))).
Proof.
  intros H. unfold decode. pose proof (utf8_run_ok value (utf8 d) H) as Hr.
  destruct (utf8_run (utf8 d) value) as [out st].
  now destruct (serialize (bom_seen d) out).
Qed.

Lemma serialize_last (seen : bool) (o : list Z) :
  ~ In BOM (o ++ [LF]) ->
  fst (serialize seen (o ++ [LF])) = o ++ [LF].
Proof.
  intros H. unfold serialize. destruct seen; [reflexivity|].
  destruct (o ++ [LF]) as [|cp r] eqn:E; [reflexivity|]. cbn [fst].
  destruct (Z.eqb_spec cp BOM) as [->|]; [|reflexivity].
  exfalso. apply H. now left.
Qed.

(** A chunk that ends with a line feed decodes to a text that ends with
    one. *)
Lemma decode_ends_with_LF (d : TextDecoder.t) (a : list byte) :
  utf8_ok (utf8 d) ->
  exists t, fst (decode d (a ++ [LF])) = t ++ [LF].
Proof.
  intros Hok. rewrite decode_app.
  destruct (decode d a) as [t1 d1] eqn:Ha.
  assert (Hok1 : utf8_ok (utf8 d1)).
  { pose proof (decode_ok d a Hok) as H. now rewrite Ha in H. }
  destruct (utf8_step_LF (utf8 d1) Hok1) as (o & Hs & Hb).
  unfold decode at 1. simpl utf8_run. rewrite Hs, app_nil_r.
  pose proof (serialize_last (bom_seen d1) o Hb) as Hser.
  destruct (serialize (bom_seen d1) (o ++ [LF])) as [x s] eqn:E.
  assert (Hx : x = o ++ [LF]).
  { change x with (fst (x, s)). rewrite <- E. exact Hser. }
  subst x. cbn [fst]. rewrite flat_map_app. simpl flat_map at 2.
  exists (t1 ++ flat_map utf16 o). now rewrite app_assoc.
Qed.

Lemma fragments_of_chunk_LF (t : jsstring) :
  fragments_of_chunk (t ++ [LF]) = fragments_of_chunk t.
Proof. rewrite fragments_of_chunk_app. apply app_nil_r. Qed.

Lemma decoded_app (xs ys : list (list byte)) :
  forall d,
    decoded d (xs ++ ys)
    = decoded d xs
      ++ decoded (fold_left (fun d c => snd (decode d c)) xs d) ys.
Proof.
  induction xs as [|x xs IH]; intros d; simpl; [reflexivity|].
  destruct (decode d x) as [t d1]. simpl. now rewrite IH.
Qed.

Lemma decoder_after_ok (xs : list (list byte)) :
  forall d, utf8_ok (utf8 d) ->
            utf8_ok (utf8 (fold_left (fun d c => snd (decode d c)) xs d)).
Proof.
  induction xs as [|x xs IH]; intros d H; simpl; [exact H|].
  apply IH. now apply decode_ok.
Qed.

Lemma join_reads (d : TextDecoder.t) (a b : list byte) (after : list (list byte)) :
  utf8_ok (utf8 d) ->
  flat_map fragments_of_chunk (decoded d ((a ++ [LF]) :: b :: after))
  = flat_map fragments_of_chunk (decoded d (((a ++ [LF]) ++ b) :: after)).
Proof.
  intros Hok. cbn [decoded]. rewrite (decode_app d (a ++ [LF]) b).
  destruct (decode_ends_with_LF d a Hok) as (t & Ht).
  destruct (decode d (a ++ [LF])) as [t1 d1]. cbn [fst] in Ht. subst t1.
  destruct (decode d1 b) as [t2 d2]. cbn [flat_map].
  rewrite fragments_of_chunk_LF.
  replace ((t ++ [LF]) ++ t2) with (t ++ LF :: t2) by (now rewrite <- app_assoc).
  now rewrite fragments_of_chunk_app, app_assoc.
Qed.

(** X13: a read that ends with a line feed and the read after it give the
    fragments of the two joined into one read: where the reads are cut
    between lines, the cut does not show. *)
Theorem reads_cut_after_a_line :
  forall before a b after e,
    fragments {| chunks := before ++ [a ++ [LF]; b] ++ after; ending := e |}
    = fragments {| chunks := before ++ [a ++ [LF] ++ b] ++ after; ending := e |}.
Proof.
  intros before a b after e. unfold fragments. cbn [chunks].
  rewrite !(decoded_app before), !flat_map_app. f_equal.
  replace (a ++ [LF] ++ b) with ((a ++ [LF]) ++ b) by (now rewrite <- app_assoc).
  apply (join_reads _ a b after).
  apply decoder_after_ok. now left.
Qed.

(** ** From the tokens of the flow engine to fragments *)

Lemma flowise_stream_chunks (w : World) (prediction : PredictionEvents) :
  failure prediction = None ->
  chunks (flowise_stream w prediction)
  = map (fun data => TextEncoder.encode (sse_line w data)) (tokens prediction)
    ++ [TextEncoder.encode (SENTINEL ++ [LF; LF])]
  /\ ending (flowise_stream w prediction) = Closed.
Proof.
  intros Hf. unfold flowise_stream, tokens. rewrite Hf. cbn [chunks ending].
  split; [|reflexivity]. f_equal.
  induction (events prediction) as [|[event data] evs IH]; [reflexivity|].
  cbn [flat_map]. rewrite map_app, <- IH.
  destruct (_ && _); reflexivity.
Qed.

(** A well-formed text that begins with the letter d comes back from its
    bytes, whatever the decoder has seen before, provided no sequence is
    open. *)
Lemma decode_encode_text (d : TextDecoder.t) (r : jsstring) :
  utf8 d = utf8_init ->
  well_formed (100 :: r) = true ->
  decode d (TextEncoder.encode (100 :: r))
  = (100 :: r, {| utf8 := utf8_init; bom_seen := true |}).
Proof.
  intros Hd Hw. unfold well_formed in Hw. apply andb_true_iff in Hw as [Hs He].
  apply str_eqb_eq in He.
  unfold decode, TextEncoder.encode. rewrite Hd, (utf8_run_encode _ Hs).
  assert (Hh : exists t, TextEncoder.scalars (100 :: r) = 100 :: t).
  { eexists. reflexivity. }
  destruct Hh as (t & Ht). rewrite Ht in *.
  assert (Hser : serialize (bom_seen d) (100 :: t) = (100 :: t, true)).
  { unfold serialize. destruct (bom_seen d); reflexivity. }
  rewrite Hser, He. reflexivity.
Qed.

Lemma trimStart_suffix (s : jsstring) : exists pre, s = pre ++ trimStart s.
Proof.
  induction s as [|u r (pre & IH)]; [now exists []|]. simpl.
  destruct (is_white_space u); [|now exists []].
  exists (u :: pre). simpl. now rewrite <- IH.
Qed.

(** What [trim] leaves of a line that begins with no white space is the
    beginning of the line. *)
Lemma trim_prefix (u : code_unit) (r : jsstring) :
  is_white_space u = false -> exists tail, u :: r = trim (u :: r) ++ tail.
Proof.
  intros Hu. unfold trim, trimEnd. simpl trimStart at 2. rewrite Hu.
  destruct (trimStart_suffix (rev (u :: r))) as (pre & H).
  exists (rev pre). rewrite <- rev_app_distr, <- H. symmetry. apply rev_involutive.
Qed.

(** No JSON text begins like the sentinel's payload. *)
Lemma parse_DONE (tail : jsstring) : JSON.parse (str "[DONE]" ++ tail) = None.
Proof.
  unfold JSON.parse.
  replace (2 * List.length (str "[DONE]" ++ tail) + 1)%nat
    with (S (S (S (2 * List.length tail + 10)))) by (rewrite length_app; simpl; lia).
  reflexivity.
Qed.

Lemma startsWith_app (p s : jsstring) : startsWith (p ++ s) p = true.
Proof.
  induction p as [|u p IH]; simpl; [now destruct s|].
  now rewrite Z.eqb_refl, IH.
Qed.

Lemma includes_after_data (s p : jsstring) :
  includes (str "data: " ++ s) (101 :: p) = includes s (101 :: p).
Proof. reflexivity. Qed.

(** The chunk of a token is one line, and the line yields the token. *)
Lemma lines_of_sse_line (w : World) (data : jsstring) :
  nonempty data = true ->
  stringify_faithful w data ->
  includes (formattedChunk w data) (str "event: ping") = false ->
  lines_of (sse_line w data) = [str "data: " ++ formattedChunk w data]
  /\ process_line (str "data: " ++ formattedChunk w data) = Yield (JString data).
Proof.
  intros Hne (Hj & Hlf & _) Hp.
  set (s := formattedChunk w data) in *.
  set (line := str "data: " ++ s).
  assert (Hline : sse_line w data = line ++ LF :: [LF]).
  { unfold sse_line, line. fold s. now rewrite <- app_assoc. }
  assert (Hnl : ~ In LF line).
  { unfold line. intros Hin. apply in_app_or in Hin as [Hin|Hin]; [|contradiction].
    simpl in Hin. unfold LF in Hin.
    repeat (destruct Hin as [Hin|Hin]; [discriminate|]). exact Hin. }
  assert (Hy : process_line line = Yield (JString data)).
  { apply (data_line_yields line (chunk_object data)).
    - apply startsWith_app.
    - unfold line. change (str "event: ping") with (101 :: str "vent: ping").
      rewrite includes_after_data. exact Hp.
    - exact Hj.
    - unfold Spec.fragment_of, Spec.is_content_delta, Spec.at_path,
        Spec.choices_0_delta_content, chunk_object.
      cbn. destruct data; [discriminate | reflexivity]. }
  split; [|exact Hy].
  rewrite Hline, lines_of_app.
  change (lines_of [LF]) with (@nil jsstring). rewrite app_nil_r.
  unfold lines_of. rewrite (split_one LF line Hnl). cbn [filter].
  rewrite trim_blank.
  assert (Hb : Spec.blank line = false) by reflexivity.
  rewrite Hb. cbn [negb andb].
  destruct (str_eqb (trim line) SENTINEL) eqn:Hs; [|reflexivity].
  apply str_eqb_eq in Hs.
  destruct (trim_prefix 100 (str "ata: " ++ s) eq_refl) as (tail & Ht).
  change (100 :: str "ata: " ++ s) with line in Ht. rewrite Hs in Ht.
  unfold line in Ht. simpl in Ht.
  injection Ht as Ht. rewrite Ht in Hj.
  change (91 :: 68 :: 79 :: 78 :: 69 :: 93 :: tail) with (str "[DONE]" ++ tail) in Hj.
  rewrite parse_DONE in Hj. discriminate.
Qed.

Lemma tokens_nonempty (prediction : PredictionEvents) (data : jsstring) :
  In data (tokens prediction) -> nonempty data = true.
Proof.
  unfold tokens. induction (events prediction) as [|[event d] evs IH]; [contradiction|].
  cbn [flat_map]. intros Hin. apply in_app_or in Hin as [Hin|Hin]; [|now apply IH].
  destruct (str_eqb event (str "token")); [|contradiction]. simpl in Hin.
  destruct (nonempty d) eqn:Hd; [|contradiction].
  destruct Hin as [<-|[]]. exact Hd.
Qed.

(** The reads of the stream give back the texts that were enqueued. *)
Lemma decoded_sse (w : World) (toks : list jsstring) :
  (forall data, In data toks -> well_formed (sse_line w data) = true) ->
  forall d, utf8 d = utf8_init ->
    decoded d (map (fun data => TextEncoder.encode (sse_line w data)) toks
               ++ [TextEncoder.encode (SENTINEL ++ [LF; LF])])
    = map (sse_line w) toks ++ [SENTINEL ++ [LF; LF]].
Proof.
  induction toks as [|data toks IH]; intros Hw d Hd.
  - cbn [map app decoded].
    change (SENTINEL ++ [LF; LF]) with (100 :: str "ata: [DONE]" ++ [LF; LF]).
    rewrite decode_encode_text; [reflexivity | exact Hd | reflexivity].
  - cbn [map app decoded].
    change (sse_line w data)
      with (100 :: str "ata: " ++ formattedChunk w data ++ [LF; LF]).
    rewrite decode_encode_text;
      [|exact Hd | apply (Hw data); now left].
    f_equal. apply IH; [|reflexivity].
    intros data' Hin. apply Hw. now right.
Qed.

Lemma sse_lines_yield (w : World) (toks : list jsstring) :
  (forall data, In data toks ->
                nonempty data = true
                /\ stringify_faithful w data
                /\ includes (formattedChunk w data) (str "event: ping") = false) ->
  flat_map fragments_of_chunk (map (sse_line w) toks) = map JString toks
  /\ flat_map warned_of_chunk (map (sse_line w) toks) = [].
Proof.
  induction toks as [|data toks IH]; intros Hall; [split; reflexivity|].
  destruct IH as [IHf IHw]; [intros x Hx; apply Hall; now right|].
  destruct (Hall data (or_introl eq_refl)) as (Hne & Hs & Hp).
  destruct (lines_of_sse_line w data Hne Hs Hp) as [Hl Hy].
  cbn [map flat_map]. rewrite IHf, IHw.
  unfold fragments_of_chunk, warned_of_chunk. rewrite Hl.
  unfold fragments_of_lines, warned_of_lines. cbn [flat_map filter].
  rewrite Hy. split; reflexivity.
Qed.

(** X14: the stream the flowise adapter builds, run through the
    normaliser, gives back the tokens of the prediction: the data, not
    empty, of the events named token, in order, then the end, with no
    warning.  [JSON.stringify] is assumed to serialise the chunk of each
    token to one line of well-formed text that parses back to the chunk,
    and no serialised chunk may hold the text [event: ping]. *)
Theorem flowise_tokens_round_trip :
  forall w prediction,
    failure prediction = None ->
    (forall data, In data (tokens prediction) ->
                  stringify_faithful w data
                  /\ includes (formattedChunk w data) (str "event: ping") = false) ->
    fragments (flowise_stream w prediction) = map JString (tokens prediction)
    /\ exists g',
         drain (S (List.length (tokens prediction)))
               (streamChatResponse (flowise_stream w prediction))
         = (map JString (tokens prediction), Some (Done, g'))
         /\ console g' = [].
Proof.
  intros w prediction Hf Hall.
  destruct (flowise_stream_chunks w prediction Hf) as [Hc He].
  assert (Hdec : decoded TextDecoder.create (chunks (flowise_stream w prediction))
                 = map (sse_line w) (tokens prediction) ++ [SENTINEL ++ [LF; LF]]).
  { rewrite Hc. apply decoded_sse; [|reflexivity].
    intros data Hin. destruct (Hall data Hin) as [(_ & _ & Hw) _]. exact Hw. }
  destruct (sse_lines_yield w (tokens prediction)) as [Hy Hwarn].
  { intros data Hin. split; [now apply tokens_nonempty with prediction|].
    now apply Hall. }
  assert (Hfr : fragments (flowise_stream w prediction)
                = map JString (tokens prediction)).
  { unfold fragments. rewrite Hdec, flat_map_app, Hy.
    change (flat_map fragments_of_chunk [SENTINEL ++ [LF; LF]]) with (@nil value).
    apply app_nil_r. }
  split; [exact Hfr|].
  assert (Hn : (List.length (remaining (streamChatResponse (flowise_stream w prediction)))
                < S (List.length (tokens prediction)))%nat).
  { change (remaining (streamChatResponse (flowise_stream w prediction)))
      with (fragments (flowise_stream w prediction)).
    rewrite Hfr, length_map. lia. }
  destruct (drain_remaining _ (streamChatResponse (flowise_stream w prediction))
              eq_refl Hn) as (g' & Hd & Hcomp & _).
  exists g'. cbn [reader streamChatResponse] in Hd. rewrite He in Hd.
  change (remaining (streamChatResponse (flowise_stream w prediction)))
    with (fragments (flowise_stream w prediction)) in Hd.
  rewrite Hfr in Hd. split; [exact Hd|].
  pose proof (drain_console _ _ _ _ _ Hd) as Hcon.
  unfold console_due in Hcon. rewrite Hcomp in Hcon. rewrite Hcon.
  cbn [completed streamChatResponse console lines decoder reader app].
  change (warned_of_lines []) with (@nil jsstring). cbn [app].
  rewrite Hdec, flat_map_app, Hwarn. reflexivity.
Qed.

Lemma flowise_tokens_round_trip_witness :
  fragments (flowise_stream streaming_engine token_events)
  = [JString (str "Hi"); JString (str " there")]
  /\ exists g',
       drain 3 (streamChatResponse (flowise_stream streaming_engine token_events))
       = ([JString (str "Hi"); JString (str " there")], Some (Done, g'))
       /\ console g' = [].
Proof.
  refine (flowise_tokens_round_trip streaming_engine token_events _ _).
  - reflexivity.
  - intros data [<-|[<-|[]]]; (split; [split; [|split]|]);
      try (vm_compute; reflexivity);
      vm_compute; intuition discriminate.
Defined.

(** ** [truncate] *)

Lemma slice_to_firstn (s : jsstring) (n : Z) :
  0 <= n -> n < Z.of_nat (List.length s) -> slice_to n s = firstn (Z.to_nat n) s.
Proof.
  intros H0 Hn. unfold slice_to.
  destruct (n <? 0) eqn:E; [apply Z.ltb_lt in E; lia|].
  now rewrite Z.min_l by lia.
Qed.

(** X15: for a length that is not negative, the truncated string has at
    most three code units more than the length, starts as the string does,
    and is longer than the string exactly when the string exceeds the length
    by one or two code units. *)
Theorem truncate_length :
  forall s n,
    0 <= n ->
    Z.of_nat (List.length (truncate s n)) <= n + 3
    /\ firstn (Z.to_nat n) (truncate s n) = firstn (Z.to_nat n) s
    /\ (Z.of_nat (List.length s) < Z.of_nat (List.length (truncate s n))
        <-> n < Z.of_nat (List.length s) < n + 3).
Proof.
  intros s n H0. unfold truncate.
  destruct (Z.of_nat (List.length s) <=? n) eqn:E.
  - apply Z.leb_le in E. split; [lia|]. split; [reflexivity|]. lia.
  - apply Z.leb_gt in E. rewrite slice_to_firstn by lia.
    assert (Hl : List.length (firstn (Z.to_nat n) s) = Z.to_nat n)
      by (apply firstn_length_le; lia).
    rewrite length_app, Hl. cbn [List.length str].
    split; [|split].
    + change (List.length (str "...")) with 3%nat. lia.
    + rewrite firstn_app, Hl, Nat.sub_diag, firstn_firstn, Nat.min_id.
      cbn [firstn]. apply app_nil_r.
    + change (List.length (str "...")) with 3%nat. lia.
Qed.

Lemma truncate_length_witness :
  Z.of_nat (List.length (truncate (str "Hello") 4)) <= 4 + 3
  /\ firstn (Z.to_nat 4) (truncate (str "Hello") 4) = firstn (Z.to_nat 4) (str "Hello")
  /\ (Z.of_nat (List.length (str "Hello"))
      < Z.of_nat (List.length (truncate (str "Hello") 4))
      <-> 4 < Z.of_nat (List.length (str "Hello")) < 4 + 3).
Proof.
  apply (truncate_length (str "Hello") 4). lia.
Defined.

(** X16: for a length that is not negative, truncating twice is
    truncating once. *)
Theorem truncate_idempotent :
  forall s n, 0 <= n -> truncate (truncate s n) n = truncate s n.
Proof.
  intros s n H0. unfold truncate at 2 3.
  destruct (Z.of_nat (List.length s) <=? n) eqn:E.
  - unfold truncate. now rewrite E.
  - apply Z.leb_gt in E. rewrite slice_to_firstn by lia.
    assert (Hl : List.length (firstn (Z.to_nat n) s) = Z.to_nat n)
      by (apply firstn_length_le; lia).
    unfold truncate.
    assert (Hlen : Z.of_nat (List.length (firstn (Z.to_nat n) s ++ str "...")) = n + 3).
    { rewrite length_app, Hl. change (List.length (str "...")) with 3%nat. lia. }
    rewrite Hlen.
    destruct (n + 3 <=? n) eqn:E'; [apply Z.leb_le in E'; lia|].
    rewrite (slice_to_firstn _ n H0) by (rewrite Hlen; lia).
    rewrite firstn_app, Hl, Nat.sub_diag, firstn_firstn, Nat.min_id.
    cbn [firstn]. now rewrite app_nil_r.
Qed.

Lemma truncate_idempotent_witness :
  truncate (truncate (str "Hello") 4) 4 = str "Hell...".
Proof.
  apply (truncate_idempotent (str "Hello") 4). lia.
Defined.

(** A negative length cuts from the end of the string. *)
Remark truncate_negative_length :
  truncate (str "Hello") (-2) = str "Hel...".
Proof. reflexivity. Qed.
